(** * imap-notify: a shallow embedding of [imap-notify.py]

    The script reads an INI file, resolves a [Configuration], connects to
    the IMAP server (retrying with a growing delay while the transport
    fails), asks for [NOTIFY SET] and waits once on the socket.

    Python values are modelled as follows.
    - [str] is a list of Unicode code points, [bytes] a list of octets.
    - A [configparser.SectionProxy] is a finite map from option names to
      the values that [section.get] returns for them (the text after
      interpolation).
    - An exception is a class, with Python's subclass order, and the
      text that [str(err)] gives.
    - A call that can fail returns [Py A], a value or a raised
      exception; a call that reaches outside the process returns
      [IO A], which also lists the events it caused.
    - What is outside the process (the files, the shell, the server) is
      a record of answers.  The server's part is a list: its answer to
      each connection attempt, in order.

    [time.sleep], [print], [subprocess.run] and [select.select] are taken
    to return; the calls on the IMAP client may raise. *)

From Stdlib Require Import ZArith NArith Ascii String List Bool Lia DecimalPos.
From stdpp Require Import base option list gmap.

Local Open Scope Z_scope.

(** ** Text *)

Module Text.

Definition char := N.
Definition str := list N.

(** A literal of the source, written as a Rocq string of ASCII
    characters. *)
Definition lit (s : string) : str :=
  List.map N_of_ascii (list_ascii_of_string s).

(** [Py_UNICODE_ISSPACE]: what [str.strip], [str.rstrip] and [int]
    treat as white space. *)
Definition isspace (c : char) : bool :=
  ((9 <=? c) && (c <=? 13) || (28 <=? c) && (c <=? 32)
   || (c =? 133) || (c =? 160) || (c =? 5760)
   || (8192 <=? c) && (c <=? 8202)
   || (c =? 8232) || (c =? 8233) || (c =? 8239) || (c =? 8287)
   || (c =? 12288))%N.

(** [s.rstrip()] *)
Fixpoint rstrip (s : str) : str :=
  match s with
  | [] => []
  | c :: r =>
      match rstrip r with
      | [] => if isspace c then [] else [c]
      | r' => c :: r'
      end
  end.

(** [s.lstrip()] *)
Fixpoint lstrip (s : str) : str :=
  match s with
  | [] => []
  | c :: r => if isspace c then lstrip r else s
  end.

Definition strip (s : str) : str := rstrip (lstrip s).

(** [s.lower()] on the letters A-Z.  No other code point lowers to a
    string made of the characters of [BOOLEAN_STATES]' keys, which is
    all the script uses [lower] for. *)
Definition lower_char (c : char) : char :=
  (if (65 <=? c) && (c <=? 90) then c + 32 else c)%N.
Definition lower (s : str) : str := List.map lower_char s.

(** [s.startswith("/")] and [s.endswith("/")] *)
Definition startswith_sep (s : str) : bool :=
  match s with
  | c :: _ => (c =? 47)%N
  | [] => false
  end.
Definition endswith_sep (s : str) : bool :=
  match last s with
  | Some c => (c =? 47)%N
  | None => false
  end.

(** [str(n)] for an [int]. *)
Fixpoint uint_chars (d : Decimal.uint) : str :=
  match d with
  | Decimal.Nil => []
  | Decimal.D0 d => 48%N :: uint_chars d
  | Decimal.D1 d => 49%N :: uint_chars d
  | Decimal.D2 d => 50%N :: uint_chars d
  | Decimal.D3 d => 51%N :: uint_chars d
  | Decimal.D4 d => 52%N :: uint_chars d
  | Decimal.D5 d => 53%N :: uint_chars d
  | Decimal.D6 d => 54%N :: uint_chars d
  | Decimal.D7 d => 55%N :: uint_chars d
  | Decimal.D8 d => 56%N :: uint_chars d
  | Decimal.D9 d => 57%N :: uint_chars d
  end.

Definition str_of_int (z : Z) : str :=
  match Z.to_int z with
  | Decimal.Pos d => uint_chars d
  | Decimal.Neg d => 45%N :: uint_chars d
  end.

(** [int(s)] in base 10: optional white space around, an optional
    sign, then digits, with single underscores allowed between two
    digits.  [None] stands for [ValueError].  The digits are the
    ASCII ones. *)
Definition digit_value (c : char) : option Z :=
  if ((48 <=? c) && (c <=? 57))%N then Some (Z.of_N c - 48) else None.

Fixpoint int_digits (acc : Z) (after_digit : bool) (s : str) : option Z :=
  match s with
  | [] => if after_digit then Some acc else None
  | c :: r =>
      if (c =? 95)%N then
        if after_digit then int_digits acc false r else None
      else
        match digit_value c with
        | Some d => int_digits (10 * acc + d) true r
        | None => None
        end
  end.

Definition int_of_str (s : str) : option Z :=
  match strip s with
  | c :: r =>
      if (c =? 43)%N then int_digits 0 false r
      else if (c =? 45)%N then Z.opp <$> int_digits 0 false r
      else int_digits 0 false (c :: r)
  | [] => None
  end.

(** [b.decode("utf-8")] with the default strict error handling: the
    shortest-form rule, no surrogates, nothing above U+10FFFF.
    [None] stands for [UnicodeDecodeError]. *)
Definition continuation (b : N) : bool := ((128 <=? b) && (b <=? 191))%N.

Fixpoint decode_utf8 (bs : list N) : option str :=
  match bs with
  | [] => Some []
  | b0 :: r0 =>
      if (b0 <? 128)%N then cons b0 <$> decode_utf8 r0
      else if ((194 <=? b0) && (b0 <=? 223))%N then
        match r0 with
        | b1 :: r1 =>
            if continuation b1
            then cons ((b0 - 192) * 64 + (b1 - 128))%N <$> decode_utf8 r1
            else None
        | _ => None
        end
      else if ((224 <=? b0) && (b0 <=? 239))%N then
        match r0 with
        | b1 :: b2 :: r2 =>
            let c := ((b0 - 224) * 4096 + (b1 - 128) * 64 + (b2 - 128))%N in
            if continuation b1 && continuation b2
               && (2048 <=? c)%N && negb ((55296 <=? c) && (c <=? 57343))%N
            then cons c <$> decode_utf8 r2
            else None
        | _ => None
        end
      else if ((240 <=? b0) && (b0 <=? 244))%N then
        match r0 with
        | b1 :: b2 :: b3 :: r3 =>
            let c := ((b0 - 240) * 262144 + (b1 - 128) * 4096
                      + (b2 - 128) * 64 + (b3 - 128))%N in
            if continuation b1 && continuation b2 && continuation b3
               && (65536 <=? c)%N && (c <=? 1114111)%N
            then cons c <$> decode_utf8 r3
            else None
        | _ => None
        end
      else None
  end.

End Text.

Import Text.

(** ** Exceptions *)

Module Exc.

(** The exception classes that can reach the script, with the classes
    of [builtins], [socket], [ssl], [imaplib] and [configparser] that
    the calls of the script raise. *)
Inductive exc_class : Set :=
| BaseException | KeyboardInterrupt | Exception
| OSError | ConnectionError | ConnectionRefusedError
| ConnectionResetError | TimeoutError | gaierror | SSLError
| ValueError | UnicodeDecodeError
| NameError | UnboundLocalError
| IMAP4_error | IMAP4_abort | IMAP4_readonly
| configparser_Error
| ImapError | ConfigError.

#[export] Instance exc_class_eq_dec : EqDecision exc_class.
Proof. solve_decision. Defined.

(** The base class of each class ([class ConfigError(ImapError)],
    [class ImapError(Exception)], and the library's declarations). *)
Definition base (c : exc_class) : option exc_class :=
  match c with
  | BaseException => None
  | KeyboardInterrupt => Some BaseException
  | Exception => Some BaseException
  | OSError => Some Exception
  | ConnectionError => Some OSError
  | ConnectionRefusedError => Some ConnectionError
  | ConnectionResetError => Some ConnectionError
  | TimeoutError => Some OSError
  | gaierror => Some OSError
  | SSLError => Some OSError
  | ValueError => Some Exception
  | UnicodeDecodeError => Some ValueError
  | NameError => Some Exception
  | UnboundLocalError => Some NameError
  | IMAP4_error => Some Exception
  | IMAP4_abort => Some IMAP4_error
  | IMAP4_readonly => Some IMAP4_abort
  | configparser_Error => Some Exception
  | ImapError => Some Exception
  | ConfigError => Some ImapError
  end.

(** The class and its bases, nearest first; [depth] bounds the walk. *)
Fixpoint bases_upto (depth : nat) (c : exc_class) : list exc_class :=
  c :: match depth with
       | O => []
       | S n => match base c with
                | Some b => bases_upto n b
                | None => []
                end
       end.

Definition mro (c : exc_class) : list exc_class := bases_upto 5 c.

(** [issubclass(c, b)], which is what an [except b] clause tests. *)
Definition issubclass (c b : exc_class) : bool := bool_decide (b ∈ mro c).

Record exn : Set := mk_exn { exn_class : exc_class; exn_str : str }.

(** [except cls as err] matches [err]. *)
Definition caught_by (cls : exc_class) (err : exn) : bool :=
  issubclass (exn_class err) cls.

(** The result of a call: a value, or a raised exception. *)
Inductive Py (A : Type) : Type :=
| Return (a : A)
| Raise (err : exn).
Arguments Return {A} a.
Arguments Raise {A} err.

Definition bind {A B} (m : Py A) (k : A -> Py B) : Py B :=
  match m with
  | Return a => k a
  | Raise err => Raise err
  end.

Definition raise {A} (cls : exc_class) (msg : str) : Py A :=
  Raise (mk_exn cls msg).

End Exc.

Import Exc.

Notation "x ←ᵖ m ; k" := (Exc.bind m (fun x => k))
  (at level 20, m at level 100, k at level 200, only parsing).

(** ** The world and what the process does to it *)

Inductive stream : Set := Stdout | Stderr.

Inductive imap_class : Set := IMAP4 | IMAP4_SSL.

(** A socket, and the moment (in seconds after [select] is entered) at
    which the server's first bytes can be read from it, if ever. *)
Record Socket : Set := mk_Socket {
  fileno : Z;
  readable_at : option Z
}.

(** An [imaplib] client object: its socket and its [debug] attribute. *)
Record Client : Set := mk_Client {
  client_socket : Socket;
  client_debug : Z
}.

(** How the network and the server answer one connection attempt: the
    exception, if any, that each call on the client ends with. *)
Record Attempt : Set := mk_Attempt {
  on_open : option exn;
  on_starttls : option exn;
  on_login : option exn;
  on_notify : option exn;
  socket_ : Socket
}.

Inductive event : Set :=
| Sleep (secs : Z)
| Open (cls : imap_class) (host : str) (port : Z)
| Starttls
| Login (user : str) (pass : str)
| SimpleCommand (name : str) (args : str)
| Select (rlist : list Socket) (timeout : Z)
| Print (out : stream) (text : str)
| SetCommand (name : str) (states : list str)
| Run (cmd : str).

(** A computation that talks to the world: the events so far, and a
    value or an exception. *)
Definition IO (A : Type) : Type := list event * Py A.

Definition io_ret {A} (a : A) : IO A := ([], Return a).

Definition io_bind {A B} (m : IO A) (k : A -> IO B) : IO B :=
  match m with
  | (t, Return a) => let (t', r) := k a in (t ++ t', r)
  | (t, Raise err) => (t, Raise err)
  end.

(** One call into a library: the event, and how it ends. *)
Definition call (ev : event) (failure : option exn) : IO unit :=
  ([ev], match failure with
         | Some err => Raise err
         | None => Return tt
         end).

Notation "x <- m ; k" := (io_bind m (fun x => k))
  (at level 20, m at level 100, k at level 200, only parsing).
Notation "m ;;; k" := (io_bind m (fun _ => k))
  (at level 200, right associativity, only parsing).

(** A call that touches nothing outside. *)
Definition pure {A} (r : Py A) : IO A := ([], r).

(** [print(text)] and [print(text, file=sys.stderr)] *)
Definition print (out : stream) (text : str) : IO unit :=
  call (Print out text) None.

(** ** Configuration *)

Inductive Encryption : Set := NONE | IMAPS | STARTTLS.

#[export] Instance Encryption_eq_dec : EqDecision Encryption.
Proof. solve_decision. Defined.

Record Configuration : Set := mk_Configuration {
  host : str;
  port : Z;
  username : str;
  password : str;
  encryption : Encryption;
  debug : bool
}.

(** A section of the parsed file: option name to value.  [section.get]
    never yields [None] for an option that is there, an option written
    with nothing after the [=] has the empty string. *)
Abbreviation SectionProxy := (gmap str str).

(** [section.get(key, fallback)] *)
Definition section_get (section : SectionProxy) (key : str)
    (fallback : option str) : option str :=
  match section !! key with
  | Some v => Some v
  | None => fallback
  end.

(** [bool(x)] for [x] a [str] or [None]. *)
Definition truthy (x : option str) : bool :=
  match x with
  | Some (_ :: _) => true
  | _ => false
  end.

(** [configparser.RawConfigParser.BOOLEAN_STATES] *)
Definition BOOLEAN_STATES : list (str * bool) :=
  [ (lit "1", true); (lit "yes", true); (lit "true", true); (lit "on", true);
    (lit "0", false); (lit "no", false); (lit "false", false);
    (lit "off", false) ].

Fixpoint dict_get {V} (d : list (str * V)) (k : str) : option V :=
  match d with
  | [] => None
  | (k', v) :: d' => if bool_decide (k' = k) then Some v else dict_get d' k
  end.

(** [RawConfigParser._convert_to_boolean] *)
Definition convert_to_boolean (value : str) : Py bool :=
  match dict_get BOOLEAN_STATES (lower value) with
  | Some b => Return b
  | None => raise ValueError (lit "Not a boolean: " ++ value)
  end.

(** [section.getboolean(key, fallback=fallback)] *)
Definition getboolean (section : SectionProxy) (key : str)
    (fallback : bool) : Py bool :=
  match section !! key with
  | Some v => convert_to_boolean v
  | None => Return fallback
  end.

(** [subprocess.CompletedProcess], as far as [get_password] reads it. *)
Record CompletedProcess : Set := mk_CompletedProcess {
  returncode : Z;
  stdout : list N
}.

(** [configparser.ConfigParser] after [read(path)]: section name to
    section. *)
Abbreviation ConfigParser := (gmap str (gmap str str)).

Section Config.

(** [subprocess.run(cmd, capture_output=True, shell=True)]: what the
    shell answers to each command line. *)
Variable shell : str -> CompletedProcess.

(** [parser = configparser.ConfigParser(); parser.read(path)]: the
    parser a path gives.  A file that is not there gives the empty
    parser, a file that does not parse gives an exception. *)
Variable read_ini : str -> Py ConfigParser.

Definition get_password (section : SectionProxy) : IO str :=
  let password := section_get section (lit "password") None in
  let password_cmd := section_get section (lit "password_command") None in
  if truthy password && truthy password_cmd then
    pure (raise ConfigError
            (lit "password or password_command are mutually exclusive"))
  else if truthy password_cmd then
    let cmd := default [] password_cmd in
    call (Run cmd) None;;;
    let process := shell cmd in
    if negb (returncode process =? 0) then
      pure (raise ConfigError
              (lit "Password command '" ++ cmd ++ lit "' exited with "
                   ++ str_of_int (returncode process)))
    else
      match decode_utf8 (stdout process) with
      | Some text => io_ret (rstrip text)
      | None =>
          pure (raise UnicodeDecodeError
                  (lit "'utf-8' codec can't decode bytes"))
      end
  else if negb (truthy password) then
    pure (raise ConfigError (lit "No imap password or password_command set"))
  else
    io_ret (default [] password).

Definition get_encryption (section : SectionProxy) : Py Encryption :=
  imaps ←ᵖ getboolean section (lit "imaps") false;
  starttls ←ᵖ getboolean section (lit "starttls") (negb imaps);
  if starttls && imaps then
    raise ImapError (lit "You cannot enable both starttls and imaps")
  else if imaps then Return IMAPS
  else if starttls then Return STARTTLS
  else Return NONE.

(** [port in range(1, 65535)] *)
Definition in_range (lo hi x : Z) : bool := (lo <=? x) && (x <? hi).

(** [int(s)] as a call: the integer, or [ValueError] (its message
    quotes [s]; the quoting of [repr] is not modelled). *)
Definition int_ (s : str) : Py Z :=
  match int_of_str s with
  | Some n => Return n
  | None =>
      raise ValueError
        (lit "invalid literal for int() with base 10: '" ++ s ++ lit "'")
  end.

(** [get_port] has one local that its [try] body binds, [port]; it is
    unbound ([None]) until [int(raw_port)] has returned.  Reading an
    unbound local raises [UnboundLocalError]. *)
Definition load_local (name : str) (v : option Z) : Py Z :=
  match v with
  | Some x => Return x
  | None =>
      raise UnboundLocalError
        (lit "cannot access local variable '" ++ name
             ++ lit "' where it is not associated with a value")
  end.

(** The [try] body runs to a value or an exception and leaves [port]
    bound or not; the [except ValueError] clause then sees both. *)
Definition get_port (section : SectionProxy) (default_port : Z) : Py Z :=
  let raw_port :=
    default [] (section_get section (lit "port")
                  (Some (str_of_int default_port))) in
  let unbound : option Z := None in
  let body : option Z * Py Z :=
    match int_ raw_port with
    | Raise err => (unbound, Raise err)
    | Return n =>
        let port := Some n in
        (port,
         p ←ᵖ load_local (lit "port") port;
         if negb (in_range 1 65535 p) then
           p' ←ᵖ load_local (lit "port") port;
           raise ImapError
             (lit "Imap port is out of range (1-65535): " ++ str_of_int p')
         else load_local (lit "port") port)
    end in
  match body with
  | (port, Raise err) =>
      if caught_by ValueError err then
        p ←ᵖ load_local (lit "port") port;
        raise ImapError
          (lit "Imap port is not a valid: " ++ str_of_int p
               ++ lit ": " ++ exn_str err)
      else Raise err
  | (_, Return p) => Return p
  end.

Definition read_configuration (path : str) : IO Configuration :=
  parser <- pure (read_ini path);
  match parser !! lit "imap" with
  | None => pure (raise ConfigError (lit "No imap section found"))
  | Some imap =>
      let host := section_get imap (lit "host") None in
      if negb (truthy host) then
        pure (raise ConfigError (lit "No imap host set"))
      else
      let username := section_get imap (lit "username") None in
      if negb (truthy username) then
        pure (raise ConfigError (lit "No imap username set"))
      else
      encryption <- pure (get_encryption imap);
      port <- pure (get_port imap
                     (if bool_decide (encryption = IMAPS) then 993 else 143));
      password <- get_password imap;
      debug <- pure (getboolean imap (lit "debug") false);
      io_ret (mk_Configuration (default [] host) port (default [] username)
                password encryption debug)
  end.

End Config.

(** ** The network *)

(** [select.select(rlist, [], [], timeout)]: the sockets of [rlist] that
    are readable before [timeout] seconds have passed; the empty list if
    the time runs out. *)
Definition select (rlist : list Socket) (timeout : Z) : list Socket :=
  List.filter
    (fun s => match readable_at s with
              | Some t => t <? timeout
              | None => false
              end) rlist.

Definition connect (config : Configuration) (srv : Attempt) : IO Client :=
  let imapclass :=
    if negb (bool_decide (encryption config = IMAPS)) then IMAP4
    else IMAP4_SSL in
  call (Open imapclass (host config) (port config)) (on_open srv);;;
  let client := mk_Client (socket_ srv) (if debug config then 4 else 0) in
  (if bool_decide (encryption config = STARTTLS)
   then call Starttls (on_starttls srv)
   else io_ret tt);;;
  call (Login (username config) (password config)) (on_login srv);;;
  io_ret client.

(** The three ways an iteration of [while True] ends. *)
Inductive flow : Set :=
| Continue
| Break
| Propagate (err : exn).

(** The body of the loop of [wait_for_change], from [time.sleep] on:
    the events, the value of [backoff] afterwards, and how it ends. *)
Definition iteration (config : Configuration) (backoff : Z) (srv : Attempt)
    : list event * Z * flow :=
  let '(t0, _) := call (Sleep backoff) None in
  match connect config srv with
  | (t1, Raise err) =>
      if caught_by OSError err then
        let backoff := Z.min 120 (2 * Z.max 1 backoff) in
        let '(t2, _) :=
          print Stderr
            (lit "Could not connect to server: " ++ exn_str err
                 ++ lit ". Retry in " ++ str_of_int backoff ++ lit " sec") in
        (t0 ++ t1 ++ t2, backoff, Continue)
      else (t0 ++ t1, backoff, Propagate err)
  | (t1, Return client) =>
      let backoff := 0 in
      let rest : IO unit :=
        print Stdout (lit "connected");;;
        call (SimpleCommand (lit "NOTIFY SET")
                (lit "(subscribed (FlagChange SubscriptionChange MessageNew MessageExpunge))"))
             (on_notify srv);;;
        let rlist := select [client_socket client] (60 * 15) in
        call (Select [client_socket client] (60 * 15)) None;;;
        if negb (length rlist =? 0)%nat
        then print Stdout (lit "Got change")
        else print Stdout (lit "Timeout") in
      match rest with
      | (t2, Return _) => (t0 ++ t1 ++ t2, backoff, Break)
      | (t2, Raise err) => (t0 ++ t1 ++ t2, backoff, Propagate err)
      end
  end.

(** How a call of [wait_for_change] stands once the scripted attempts
    are used up. *)
Inductive outcome : Set :=
| Returned
| Raised (err : exn)
| Retrying.

(** The loop, run against the answers to its successive connection
    attempts.  [Retrying] is the loop still going when the answers run
    out. *)
Fixpoint wait_loop (config : Configuration) (backoff : Z)
    (server : list Attempt) : list event * Z * outcome :=
  match server with
  | [] => ([], backoff, Retrying)
  | srv :: later =>
      match iteration config backoff srv with
      | (t, backoff', Continue) =>
          let '(t', b, o) := wait_loop config backoff' later in
          (t ++ t', b, o)
      | (t, backoff', Break) => (t, backoff', Returned)
      | (t, backoff', Propagate err) => (t, backoff', Raised err)
      end
  end.

Definition wait_for_change (config : Configuration) (server : list Attempt)
    : list event * Z * outcome :=
  let backoff := 0 in
  wait_loop config backoff server.

(** [os.path.join(a, b)] on POSIX. *)
Definition path_join (a b : str) : str :=
  if startswith_sep b then b
  else if bool_decide (a = []) || endswith_sep a then a ++ b
  else a ++ lit "/" ++ b.

(** What is outside the process. *)
Record World := mk_World {
  (** [os.path.expanduser] *)
  expanduser : str -> str;
  (** the files: what [ConfigParser.read] finds at a path *)
  files : str -> Py (gmap str (gmap str str));
  (** [subprocess.run] *)
  run_shell : str -> CompletedProcess;
  (** the answers to the successive connection attempts *)
  server_script : list Attempt
}.

(** How the process ends. *)
Inductive termination : Set :=
| Exit (code : Z)
| Traceback (err : exn)
| StillRetrying.

(** The local [config_file] of [main]. *)
Definition config_file (w : World) (argv : list str) (environ : gmap str str)
    : str :=
  if (1 <? length argv)%nat then default [] (argv !! 1%nat)
  else
    let config_home :=
      default [] (section_get environ (lit "XDG_CONFIG_HOME")
                    (Some (expanduser w (lit "~/.config")))) in
    path_join (path_join config_home (lit "imap-notify"))
      (lit "imap-notify.ini").

Definition main (w : World) (argv : list str) (environ : gmap str str)
    : list event * termination :=
  let '(t0, _) := call (SetCommand (lit "NOTIFY SET") [lit "AUTH"]) None in
  match read_configuration (run_shell w) (files w)
          (config_file w argv environ) with
  | (t1, Raise err) =>
      if caught_by ConfigError err then
        let '(t2, _) :=
          print Stdout (lit "Error reading configuration: " ++ exn_str err) in
        (t0 ++ t1 ++ t2, Exit 1)
      else (t0 ++ t1, Traceback err)
  | (t1, Return config) =>
      match wait_for_change config (server_script w) with
      | (t2, _, Returned) => (t0 ++ t1 ++ t2, Exit 0)
      | (t2, _, Raised err) => (t0 ++ t1 ++ t2, Traceback err)
      | (t2, _, Retrying) => (t0 ++ t1 ++ t2, StillRetrying)
      end
  end.

(** * Vocabulary of the statements *)

(** The value of a run of decimal digits read after [acc]. *)
Fixpoint uint_value (acc : Z) (d : Decimal.uint) : Z :=
  match d with
  | Decimal.Nil => acc
  | Decimal.D0 d => uint_value (10 * acc) d
  | Decimal.D1 d => uint_value (10 * acc + 1) d
  | Decimal.D2 d => uint_value (10 * acc + 2) d
  | Decimal.D3 d => uint_value (10 * acc + 3) d
  | Decimal.D4 d => uint_value (10 * acc + 4) d
  | Decimal.D5 d => uint_value (10 * acc + 5) d
  | Decimal.D6 d => uint_value (10 * acc + 6) d
  | Decimal.D7 d => uint_value (10 * acc + 7) d
  | Decimal.D8 d => uint_value (10 * acc + 8) d
  | Decimal.D9 d => uint_value (10 * acc + 9) d
  end.

Definition out_of_range_msg (p : Z) : str :=
  lit "Imap port is out of range (1-65535): " ++ str_of_int p.

Definition exclusive_msg : str :=
  lit "password or password_command are mutually exclusive".

Definition no_password_msg : str :=
  lit "No imap password or password_command set".

(** The delay before the attempt that follows [k] failures in a row. *)
Fixpoint backoff_after (k : nat) : Z :=
  match k with
  | O => 0
  | S k' => Z.min 120 (2 * Z.max 1 (backoff_after k'))
  end.

(** The exception [connect] ends with, if it does. *)
Definition connect_failure (config : Configuration) (srv : Attempt)
    : option exn :=
  match snd (connect config srv) with
  | Raise err => Some err
  | Return _ => None
  end.

(** The attempt fails with an exception of the [OSError] family. *)
Definition transport_failure (config : Configuration) (srv : Attempt) : bool :=
  match connect_failure config srv with
  | Some err => caught_by OSError err
  | None => false
  end.

(** The sleeps and the connection attempts of a trace, in order. *)
Definition timing (t : list event) : list event :=
  List.filter (fun ev => match ev with
                         | Sleep _ | Open _ _ _ => true
                         | _ => false
                         end) t.

(** The waits on a socket of a trace, in order. *)
Definition waits (t : list event) : list event :=
  List.filter (fun ev => match ev with
                         | Select _ _ => true
                         | _ => false
                         end) t.

Definition imapclass_of (config : Configuration) : imap_class :=
  match encryption config with
  | IMAPS => IMAP4_SSL
  | STARTTLS | NONE => IMAP4
  end.

Definition attempt_of (config : Configuration) : event :=
  Open (imapclass_of config) (host config) (port config).

Definition retry_msg (err : exn) (backoff : Z) : str :=
  lit "Could not connect to server: " ++ exn_str err
      ++ lit ". Retry in " ++ str_of_int backoff ++ lit " sec".

Definition notify_command : event :=
  SimpleCommand (lit "NOTIFY SET")
    (lit "(subscribed (FlagChange SubscriptionChange MessageNew MessageExpunge))").

(** What the loop does with a session once it has one. *)
Definition watch_events (sock : Socket) (report : str) : list event :=
  [Print Stdout (lit "connected"); notify_command; Select [sock] 900;
   Print Stdout report].

Definition events_of (r : list event * Z * outcome) : list event := fst (fst r).
Definition backoff_of (r : list event * Z * outcome) : Z := snd (fst r).
Definition outcome_of (r : list event * Z * outcome) : outcome := snd r.

Definition schedule (config : Configuration) (n : nat) : list event :=
  flat_map (fun k => [Sleep (backoff_after k); attempt_of config]) (seq 0 n).

Definition register_notify : event := SetCommand (lit "NOTIFY SET") [lit "AUTH"].

Definition exit_of (o : outcome) : termination :=
  match o with
  | Returned => Exit 0
  | Raised err => Traceback err
  | Retrying => StillRetrying
  end.

(** How many of the scripted attempts the loop gets to: the failures
    of the transport it retries, and the attempt that ends it. *)
Fixpoint attempts_made (config : Configuration) (server : list Attempt) : nat :=
  match server with
  | [] => O
  | srv :: later =>
      if transport_failure config srv then S (attempts_made config later)
      else 1%nat
  end.

(** The lines that the [print] calls of a trace write on one stream, in
    order.  (With [client.debug] at 4 the IMAP client writes a trace of
    its own to standard error, which is not among them.) *)
Definition printed (out : stream) (t : list event) : list str :=
  flat_map (fun ev => match ev, out with
                      | Print Stdout text, Stdout => [text]
                      | Print Stderr text, Stderr => [text]
                      | _, _ => []
                      end) t.

(** The calls [connect] makes when nothing fails. *)
Definition connect_plan (config : Configuration) : list event :=
  attempt_of config
    :: (if bool_decide (encryption config = STARTTLS) then [Starttls] else [])
    ++ [Login (username config) (password config)].

(** [str(err)] of the exception an attempt's [connect] ends with. *)
Definition failure_text (config : Configuration) (srv : Attempt) : str :=
  match connect_failure config srv with
  | Some err => exn_str err
  | None => []
  end.

(** The lines that a run of failures writes, the first of them after
    [k] earlier failures. *)
Fixpoint retry_lines (config : Configuration) (k : nat) (fails : list Attempt)
    : list str :=
  match fails with
  | [] => []
  | srv :: later =>
      (lit "Could not connect to server: " ++ failure_text config srv
           ++ lit ". Retry in " ++ str_of_int (backoff_after (S k))
           ++ lit " sec")
        :: retry_lines config (S k) later
  end.

(** The default that [read_configuration] hands to [get_port]. *)
Definition default_port_of (mode : Encryption) : Z :=
  if bool_decide (mode = IMAPS) then 993 else 143.

(** The directory part that [os.path.join] keeps of [config_home]. *)
Definition config_dir (config_home : str) : str :=
  if bool_decide (config_home = []) || endswith_sep config_home
  then config_home
  else config_home ++ lit "/".

(** * Examples *)

Module Examples.

(** A section, from its lines. *)
Definition section_of (lines : list (string * string)) : gmap str str :=
  list_to_map (List.map (fun kv => (lit (fst kv), lit (snd kv))) lines).

Definition account : list (string * string) :=
  [("host", "mail.example.com"); ("username", "alice");
   ("password", "secret")]%string.

(** [pass show mail] prints the secret and a newline; any other command
    fails with status 3. *)
Definition example_shell (cmd : str) : CompletedProcess :=
  if bool_decide (cmd = lit "pass show mail")
  then mk_CompletedProcess 0 (lit "hunter2" ++ [10%N])
  else mk_CompletedProcess 3 [].

(** One file, [/etc/imap-notify.ini], with the account and no TLS flag;
    no other path exists. *)
Definition example_files (path : str) : Py (gmap str (gmap str str)) :=
  if bool_decide (path = lit "/etc/imap-notify.ini")
  then Return {[ lit "imap" := section_of account ]}
  else Return ∅.

Definition example_config : Configuration :=
  mk_Configuration (lit "mail.example.com") 143 (lit "alice") (lit "secret")
    STARTTLS false.

Definition refused_error : exn :=
  mk_exn ConnectionRefusedError (lit "[Errno 111] Connection refused").

Definition login_rejected : exn :=
  mk_exn IMAP4_error (lit "[AUTHENTICATIONFAILED] Authentication failed.").

(** The server refuses the connection. *)
Definition refused : Attempt :=
  mk_Attempt (Some refused_error) None None None (mk_Socket 3 None).

(** The server rejects the login. *)
Definition bad_login : Attempt :=
  mk_Attempt None None (Some login_rejected) None (mk_Socket 3 None).

(** The server accepts, and sends something after 5 seconds. *)
Definition accepted : Attempt :=
  mk_Attempt None None None None (mk_Socket 4 (Some 5)).

(** The server accepts, and then says nothing. *)
Definition silent : Attempt :=
  mk_Attempt None None None None (mk_Socket 4 None).

Definition example_world (server : list Attempt) : World :=
  mk_World (fun _ => lit "/home/alice/.config") example_files example_shell
    server.

Definition argv_etc : list str :=
  [lit "imap-notify.py"; lit "/etc/imap-notify.ini"].

Definition argv_none : list str := [lit "imap-notify.py"].

End Examples.

Import Examples.

Module MoreExamples.

(** A command that prints an empty line and succeeds. *)
Definition blank_shell (cmd : str) : CompletedProcess :=
  mk_CompletedProcess 0 [10%N].

(** The account with a port that is not a number. *)
Definition bad_port_files (path : str) : Py (gmap str (gmap str str)) :=
  Return {[ lit "imap" := section_of (("port", "imaps")%string :: account) ]}.

Definition bad_port_world : World :=
  mk_World (fun _ => lit "/home/alice/.config") bad_port_files example_shell [].

(** The account over implicit TLS. *)
Definition imaps_config : Configuration :=
  mk_Configuration (lit "mail.example.com") 993 (lit "alice") (lit "secret")
    IMAPS true.

Definition tls_error : exn :=
  mk_exn SSLError (lit "[SSL: WRONG_VERSION_NUMBER] wrong version number").

Definition reset_error : exn :=
  mk_exn ConnectionResetError (lit "[Errno 104] Connection reset by peer").

(** The server is reached but the STARTTLS upgrade fails. *)
Definition no_tls : Attempt :=
  mk_Attempt None (Some tls_error) None None (mk_Socket 3 None).

(** The session is set up, and the connection drops during NOTIFY SET. *)
Definition dropped : Attempt :=
  mk_Attempt None None None (Some reset_error) (mk_Socket 4 None).

(** The account with a password command and a [debug] option that is
    not a boolean. *)
Definition verbose_section : gmap str str :=
  section_of [("host", "mail.example.com"); ("username", "alice");
              ("password_command", "pass show mail");
              ("debug", "verbose")]%string.

Definition verbose_files (path : str) : Py (gmap str (gmap str str)) :=
  Return {[ lit "imap" := verbose_section ]}.

(** A command whose output is not UTF-8. *)
Definition binary_shell (cmd : str) : CompletedProcess :=
  mk_CompletedProcess 0 [255%N].

End MoreExamples.

Import MoreExamples.

(** * Properties *)

(** ** Text *)

Lemma rstrip_nil_iff (s : str) :
  rstrip s = [] <-> Forall (fun c => isspace c = true) s.
Proof.
  induction s as [|c r IH]; simpl.
  - split; [constructor | reflexivity].
  - destruct (rstrip r) as [|c' r'] eqn:E.
    + destruct (isspace c) eqn:Ec.
      * split; [intros _; constructor; [assumption | now apply IH] | reflexivity].
      * split; [discriminate | intros H; inversion H; congruence].
    + split; [discriminate |].
      intros H. inversion H as [|? ? _ Hr]. apply IH in Hr. discriminate.
Qed.

(** [rstrip] removes a suffix made of white space. *)
Lemma rstrip_suffix (s : str) :
  exists ws, s = rstrip s ++ ws /\ Forall (fun c => isspace c = true) ws.
Proof.
  induction s as [|c r (ws & Hr & Hws)]; simpl.
  - exists []. split; [reflexivity | constructor].
  - destruct (rstrip r) as [|c' r'] eqn:E.
    + assert (Hall : Forall (fun c => isspace c = true) r)
        by (apply rstrip_nil_iff; exact E).
      destruct (isspace c) eqn:Ec.
      * exists (c :: r). split; [reflexivity | now constructor].
      * exists r. split; [reflexivity | assumption].
    + exists ws. split; [| assumption].
      simpl. f_equal. exact Hr.
Qed.

(** and what it leaves does not end in white space. *)
Lemma rstrip_last (s : str) (c : char) :
  last (rstrip s) = Some c -> isspace c = false.
Proof.
  revert c. induction s as [|a r IH]; simpl; intros c.
  - discriminate.
  - destruct (rstrip r) as [|c' r'] eqn:E.
    + destruct (isspace a) eqn:Ea; simpl; [discriminate |].
      intros [= <-]. exact Ea.
    + rewrite last_cons_cons. apply IH.
Qed.

Lemma rstrip_id (s : str) :
  Forall (fun c => isspace c = false) s -> rstrip s = s.
Proof.
  induction 1 as [|c r Hc _ IH]; simpl; [reflexivity |].
  rewrite IH. destruct r; [now rewrite Hc | reflexivity].
Qed.

Lemma lstrip_id (s : str) :
  Forall (fun c => isspace c = false) s -> lstrip s = s.
Proof. destruct 1 as [|c r Hc _]; simpl; [reflexivity | now rewrite Hc]. Qed.

Lemma strip_id (s : str) :
  Forall (fun c => isspace c = false) s -> strip s = s.
Proof. intros H. unfold strip. rewrite lstrip_id by exact H. now apply rstrip_id. Qed.

(** *** [int(str(n))] is [n] *)

Lemma int_digits_uint_chars (d : Decimal.uint) (acc : Z) :
  int_digits acc true (uint_chars d) = Some (uint_value acc d).
Proof.
  revert acc. induction d; intros acc; simpl; try reflexivity;
    rewrite IHd; do 2 f_equal; lia.
Qed.

Lemma int_digits_uint_chars_start (d : Decimal.uint) :
  d <> Decimal.Nil ->
  int_digits 0 false (uint_chars d) = Some (uint_value 0 d).
Proof.
  destruct d; intros Hd; try congruence; simpl;
    now rewrite int_digits_uint_chars.
Qed.

Lemma uint_value_acc (d : Decimal.uint) (acc : positive) :
  uint_value (Z.pos acc) d = Z.pos (Pos.of_uint_acc d acc).
Proof.
  revert acc. induction d; intros acc; simpl; try reflexivity;
    rewrite <- IHd; f_equal; lia.
Qed.

Lemma uint_value_of_uint (d : Decimal.uint) :
  uint_value 0 d = Z.of_N (Pos.of_uint d).
Proof.
  induction d; simpl; try reflexivity; try exact IHd;
    match goal with
    | |- uint_value ?a _ = _ =>
        change a with (Z.pos (Z.to_pos a)); rewrite uint_value_acc
    end; reflexivity.
Qed.

Lemma uint_chars_not_space (d : Decimal.uint) :
  Forall (fun c => isspace c = false) (uint_chars d).
Proof. induction d; simpl; constructor; auto. Qed.

Lemma to_uint_not_nil (p : positive) : Pos.to_uint p <> Decimal.Nil.
Proof.
  intros E. pose proof (DecimalPos.Unsigned.of_to p) as H.
  rewrite E in H. discriminate.
Qed.

Lemma uint_chars_head (d : Decimal.uint) (c : char) (r : str) :
  uint_chars d = c :: r -> (c =? 43)%N = false /\ (c =? 45)%N = false.
Proof. destruct d; simpl; intros [= <- _]; split; reflexivity. Qed.

Lemma int_of_str_digits (d : Decimal.uint) :
  d <> Decimal.Nil ->
  int_of_str (uint_chars d) = Some (Z.of_N (Pos.of_uint d)).
Proof.
  intros Hd. unfold int_of_str.
  rewrite strip_id by apply uint_chars_not_space.
  pose proof (int_digits_uint_chars_start d Hd) as Hv.
  destruct (uint_chars d) as [|c r] eqn:E.
  - destruct d; simpl in E; congruence.
  - destruct (uint_chars_head d c r E) as [-> ->].
    rewrite Hv. f_equal. apply uint_value_of_uint.
Qed.

Lemma int_of_str_of_int (z : Z) : int_of_str (str_of_int z) = Some z.
Proof.
  unfold str_of_int. destruct z as [|p|p]; unfold Z.to_int; cbv iota.
  - reflexivity.
  - rewrite int_of_str_digits by apply to_uint_not_nil.
    now rewrite DecimalPos.Unsigned.of_to.
  - unfold int_of_str.
    rewrite strip_id
      by (constructor; [reflexivity | apply uint_chars_not_space]).
    change ((45 =? 43)%N) with false. change ((45 =? 45)%N) with true.
    cbv iota.
    rewrite int_digits_uint_chars_start by apply to_uint_not_nil.
    rewrite uint_value_of_uint, DecimalPos.Unsigned.of_to. reflexivity.
Qed.

(** ** Reading the configuration *)

Lemma section_get_None (section : gmap str str) (key : str) :
  section_get section key None = section !! key.
Proof. unfold section_get. now destruct (section !! key). Qed.

Lemma truthy_Some (x : option str) :
  truthy x = true -> exists s, x = Some s /\ s <> [].
Proof.
  destruct x as [[|c r]|]; simpl; try discriminate.
  intros _. exists (c :: r). split; [reflexivity | discriminate].
Qed.

Lemma truthy_nonempty (s : str) : s <> [] -> truthy (Some s) = true.
Proof. destruct s; [congruence | reflexivity]. Qed.

(** *** [get_port] *)

Lemma in_range_iff (p : Z) : in_range 1 65535 p = true <-> 1 <= p <= 65534.
Proof. unfold in_range. rewrite andb_true_iff, Z.leb_le, Z.ltb_lt. lia. Qed.

Lemma get_port_of_raw (section : gmap str str) (default_port : Z) (raw : str) :
  section !! lit "port" = Some raw ->
  get_port section default_port =
    match int_of_str raw with
    | Some p =>
        if in_range 1 65535 p then Return p
        else raise ImapError (out_of_range_msg p)
    | None =>
        raise UnboundLocalError
          (lit "cannot access local variable 'port' where it is not associated with a value")
    end.
Proof.
  intros Hraw. unfold get_port, section_get, int_. rewrite Hraw.
  simpl default.
  destruct (int_of_str raw) as [p|]; simpl; [| reflexivity].
  now destruct (in_range 1 65535 p).
Qed.

Lemma get_port_absent (section : gmap str str) (default_port : Z) :
  section !! lit "port" = None ->
  get_port section default_port =
    if in_range 1 65535 default_port then Return default_port
    else raise ImapError (out_of_range_msg default_port).
Proof.
  intros Hraw. unfold get_port, section_get, int_. rewrite Hraw.
  simpl default. rewrite int_of_str_of_int. simpl.
  now destruct (in_range 1 65535 default_port).
Qed.

(** *** [get_encryption] *)

Lemma getboolean_absent (section : gmap str str) (key : str) (fallback : bool) :
  section !! key = None -> getboolean section key fallback = Return fallback.
Proof. intros H. unfold getboolean. now rewrite H. Qed.

Lemma get_encryption_of_flags (section : gmap str str) (imaps starttls : bool) :
  getboolean section (lit "imaps") false = Return imaps ->
  getboolean section (lit "starttls") (negb imaps) = Return starttls ->
  get_encryption section =
    if imaps && starttls
    then raise ImapError (lit "You cannot enable both starttls and imaps")
    else Return (if imaps then IMAPS else if starttls then STARTTLS else NONE).
Proof.
  intros Hi Hs. unfold get_encryption. rewrite Hi. simpl. rewrite Hs. simpl.
  now destruct imaps, starttls.
Qed.

(** Without either flag the mode is STARTTLS: [starttls] falls back to
    [not imaps], which is [True]. *)
Lemma get_encryption_no_flags (section : gmap str str) :
  section !! lit "imaps" = None ->
  section !! lit "starttls" = None ->
  get_encryption section = Return STARTTLS.
Proof.
  intros Hi Hs.
  rewrite (get_encryption_of_flags section false true);
    [reflexivity | |]; now apply getboolean_absent.
Qed.

(** *** [get_password] *)

Section Password.

Variable shell : str -> CompletedProcess.

Lemma get_password_both (section : gmap str str) :
  truthy (section !! lit "password") = true ->
  truthy (section !! lit "password_command") = true ->
  get_password shell section = ([], raise ConfigError exclusive_msg).
Proof.
  intros Hp Hc. unfold get_password. rewrite !section_get_None, Hp, Hc.
  reflexivity.
Qed.

Lemma get_password_neither (section : gmap str str) :
  truthy (section !! lit "password") = false ->
  truthy (section !! lit "password_command") = false ->
  get_password shell section = ([], raise ConfigError no_password_msg).
Proof.
  intros Hp Hc. unfold get_password. rewrite !section_get_None, Hp, Hc.
  reflexivity.
Qed.

(** The command branch: the command is run, and its exit status and
    output decide. *)
Lemma get_password_command (section : gmap str str) (cmd : str) :
  truthy (section !! lit "password") = false ->
  section !! lit "password_command" = Some cmd ->
  cmd <> [] ->
  get_password shell section =
    ([Run cmd],
     if negb (returncode (shell cmd) =? 0) then
       raise ConfigError
         (lit "Password command '" ++ cmd ++ lit "' exited with "
              ++ str_of_int (returncode (shell cmd)))
     else
       match decode_utf8 (stdout (shell cmd)) with
       | Some text => Return (rstrip text)
       | None => raise UnicodeDecodeError (lit "'utf-8' codec can't decode bytes")
       end).
Proof.
  intros Hp Hc Hne. unfold get_password.
  rewrite !section_get_None, Hp, Hc, (truthy_nonempty cmd Hne).
  simpl. destruct (negb (returncode (shell cmd) =? 0)); [reflexivity |].
  now destruct (decode_utf8 (stdout (shell cmd))).
Qed.

Lemma get_password_literal (section : gmap str str) (secret : str) :
  section !! lit "password" = Some secret ->
  secret <> [] ->
  truthy (section !! lit "password_command") = false ->
  get_password shell section = ([], Return secret).
Proof.
  intros Hp Hne Hc. unfold get_password.
  rewrite !section_get_None, Hp, Hc, (truthy_nonempty secret Hne).
  reflexivity.
Qed.

End Password.

(** *** [read_configuration] *)

Section ReadConfiguration.

Variable shell : str -> CompletedProcess.
Variable read_ini : str -> Py (gmap str (gmap str str)).

(** What a returned [Configuration] says about the file. *)
Lemma read_configuration_Return (path : str) (t : list event)
    (config : Configuration) :
  read_configuration shell read_ini path = (t, Return config) ->
  exists parser imap,
    read_ini path = Return parser /\
    parser !! lit "imap" = Some imap /\
    imap !! lit "host" = Some (host config) /\ host config <> [] /\
    imap !! lit "username" = Some (username config) /\ username config <> [] /\
    get_encryption imap = Return (encryption config) /\
    get_port imap (if bool_decide (encryption config = IMAPS) then 993 else 143)
      = Return (port config) /\
    get_password shell imap = (t, Return (password config)) /\
    getboolean imap (lit "debug") false = Return (debug config).
Proof.
  unfold read_configuration, pure. intros H.
  destruct (read_ini path) as [parser|e] eqn:Ep; simpl in H; [| discriminate].
  destruct (parser !! lit "imap") as [imap|] eqn:Ei; simpl in H; [| discriminate].
  rewrite !section_get_None in H.
  destruct (truthy (imap !! lit "host")) eqn:Eh; simpl in H; [| discriminate].
  destruct (truthy (imap !! lit "username")) eqn:Eu; simpl in H; [| discriminate].
  apply truthy_Some in Eh as (h & Eh & Hh).
  apply truthy_Some in Eu as (u & Eu & Hu).
  rewrite Eh, Eu in H. simpl in H.
  destruct (get_encryption imap) as [e|] eqn:Ee; simpl in H; [| discriminate].
  destruct (get_port imap _) as [p|] eqn:Eport; simpl in H; [| discriminate].
  destruct (get_password shell imap) as [tp [pw|]] eqn:Epw; simpl in H;
    [| discriminate].
  destruct (getboolean imap (lit "debug") false) as [d|] eqn:Ed; simpl in H;
    [| discriminate].
  injection H as <- <-. simpl.
  exists parser, imap. rewrite app_nil_r. repeat split; assumption.
Qed.

(** The converse: a file whose fields all resolve gives that
    [Configuration]. *)
Lemma read_configuration_intro (path : str) (parser : gmap str (gmap str str))
    (imap : gmap str str) (h u pw : str) (e : Encryption) (p : Z)
    (d : bool) (t : list event) :
  read_ini path = Return parser ->
  parser !! lit "imap" = Some imap ->
  imap !! lit "host" = Some h -> h <> [] ->
  imap !! lit "username" = Some u -> u <> [] ->
  get_encryption imap = Return e ->
  get_port imap (if bool_decide (e = IMAPS) then 993 else 143) = Return p ->
  get_password shell imap = (t, Return pw) ->
  getboolean imap (lit "debug") false = Return d ->
  read_configuration shell read_ini path
    = (t, Return (mk_Configuration h p u pw e d)).
Proof.
  intros Hp Hi Hh Hhne Hu Hune He Hport Hpw Hd.
  unfold read_configuration, pure. rewrite Hp. simpl. rewrite Hi.
  rewrite !section_get_None, Hh, Hu.
  rewrite (truthy_nonempty h Hhne), (truthy_nonempty u Hune). simpl.
  rewrite He. simpl. rewrite Hport. simpl. rewrite Hpw. simpl.
  rewrite Hd. simpl. now rewrite app_nil_r.
Qed.

(** Every failure of [read_configuration] that is a [ConfigError] comes
    with the events of [get_password] only: nothing was printed. *)
Lemma read_configuration_no_print (path : str) (t : list event) (r : Py Configuration) :
  read_configuration shell read_ini path = (t, r) ->
  Forall (fun ev => exists cmd, ev = Run cmd) t.
Proof.
  unfold read_configuration, pure.
  destruct (read_ini path) as [parser|e]; simpl;
    [| intros [= <- _]; constructor].
  destruct (parser !! lit "imap") as [imap|]; simpl;
    [| intros [= <- _]; constructor].
  destruct (negb _); simpl; [intros [= <- _]; constructor |].
  destruct (negb _); simpl; [intros [= <- _]; constructor |].
  destruct (get_encryption imap); simpl; [| intros [= <- _]; constructor].
  destruct (get_port imap _); simpl; [| intros [= <- _]; constructor].
  assert (Hpw : Forall (fun ev => exists cmd, ev = Run cmd)
                  (fst (get_password shell imap))).
  { unfold get_password.
    destruct (truthy _ && truthy _); [constructor |].
    destruct (truthy (section_get imap (lit "password_command") None)).
    - simpl. destruct (negb _); simpl.
      + repeat constructor. eexists; reflexivity.
      + destruct (decode_utf8 _); simpl; repeat constructor;
          eexists; reflexivity.
    - destruct (negb _); constructor. }
  destruct (get_password shell imap) as [tp [pw|]]; simpl in *.
  - destruct (getboolean imap (lit "debug") false); simpl;
      intros [= <- _]; rewrite ?app_nil_r; exact Hpw.
  - intros [= <- _]. exact Hpw.
Qed.

End ReadConfiguration.

(** ** The retry loop *)

Lemma timing_app (t1 t2 : list event) :
  timing (t1 ++ t2) = timing t1 ++ timing t2.
Proof. apply List.filter_app. Qed.

Lemma waits_app (t1 t2 : list event) :
  waits (t1 ++ t2) = waits t1 ++ waits t2.
Proof. apply List.filter_app. Qed.

Lemma backoff_after_closed (k : nat) :
  backoff_after k = if (k =? 0)%nat then 0 else Z.min 120 (2 ^ Z.of_nat k).
Proof.
  induction k as [|k IH]; [reflexivity |].
  cbn [backoff_after]. rewrite IH.
  replace (Z.of_nat (S k)) with (Z.succ (Z.of_nat k)) by lia.
  rewrite Z.pow_succ_r by lia.
  destruct k as [|k]; [reflexivity |].
  change ((S k =? 0)%nat) with false. change ((S (S k) =? 0)%nat) with false.
  cbv iota.
  assert (1 <= 2 ^ Z.of_nat (S k)) by (apply Z.pow_le_mono_r with (b := 0); lia).
  lia.
Qed.

Lemma backoff_after_cap (k : nat) : (7 <= k)%nat -> backoff_after k = 120.
Proof.
  intros Hk. rewrite backoff_after_closed.
  destruct k as [|k]; [lia |]. change ((S k =? 0)%nat) with false. cbv iota.
  assert (2 ^ 7 <= 2 ^ Z.of_nat (S k)) by (apply Z.pow_le_mono_r; lia).
  change (2 ^ 7) with 128 in *. lia.
Qed.

(** *** [connect] *)

Lemma connect_timing (config : Configuration) (srv : Attempt) :
  timing (fst (connect config srv)) = [attempt_of config].
Proof.
  unfold connect, attempt_of, imapclass_of, io_bind, call, io_ret.
  destruct (encryption config), (on_open srv), (on_starttls srv),
    (on_login srv); reflexivity.
Qed.

Lemma connect_waits (config : Configuration) (srv : Attempt) :
  waits (fst (connect config srv)) = [].
Proof.
  unfold connect, io_bind, call, io_ret.
  destruct (encryption config), (on_open srv), (on_starttls srv),
    (on_login srv); reflexivity.
Qed.

(** *** One iteration *)

Lemma iteration_retry (config : Configuration) (backoff : Z) (srv : Attempt)
    (t : list event) (err : exn) :
  connect config srv = (t, Raise err) ->
  caught_by OSError err = true ->
  iteration config backoff srv =
    (Sleep backoff :: t
       ++ [Print Stderr (retry_msg err (Z.min 120 (2 * Z.max 1 backoff)))],
     Z.min 120 (2 * Z.max 1 backoff), Continue).
Proof. intros Hc He. unfold iteration. rewrite Hc, He. reflexivity. Qed.

Lemma iteration_propagate (config : Configuration) (backoff : Z)
    (srv : Attempt) (t : list event) (err : exn) :
  connect config srv = (t, Raise err) ->
  caught_by OSError err = false ->
  iteration config backoff srv = (Sleep backoff :: t, backoff, Propagate err).
Proof. intros Hc He. unfold iteration. rewrite Hc, He. reflexivity. Qed.

Lemma iteration_connected (config : Configuration) (backoff : Z)
    (srv : Attempt) (t : list event) (client : Client) :
  connect config srv = (t, Return client) ->
  iteration config backoff srv =
    match on_notify srv with
    | None =>
        (Sleep backoff :: t
           ++ watch_events (client_socket client)
                (if negb (length (select [client_socket client] 900) =? 0)%nat
                 then lit "Got change" else lit "Timeout"),
         0, Break)
    | Some err =>
        (Sleep backoff :: t ++ [Print Stdout (lit "connected"); notify_command],
         0, Propagate err)
    end.
Proof.
  intros Hc. unfold iteration. rewrite Hc.
  unfold io_bind, call, print, call, watch_events, notify_command.
  destruct (on_notify srv); [reflexivity |].
  change (60 * 15) with 900.
  now destruct (negb (length (select [client_socket client] 900) =? 0)%nat).
Qed.

Lemma iteration_timing (config : Configuration) (backoff : Z) (srv : Attempt) :
  timing (fst (fst (iteration config backoff srv)))
    = [Sleep backoff; attempt_of config].
Proof.
  pose proof (connect_timing config srv) as Ht.
  destruct (connect config srv) as [t [client|err]] eqn:Hc; simpl in Ht.
  - rewrite (iteration_connected _ _ _ _ _ Hc).
    destruct (on_notify srv); simpl; rewrite timing_app, Ht; reflexivity.
  - destruct (caught_by OSError err) eqn:He.
    + rewrite (iteration_retry _ _ _ _ _ Hc He). simpl.
      rewrite timing_app, Ht. reflexivity.
    + rewrite (iteration_propagate _ _ _ _ _ Hc He). simpl.
      now rewrite Ht.
Qed.

Lemma transport_failure_inv (config : Configuration) (srv : Attempt) :
  transport_failure config srv = true ->
  exists t err,
    connect config srv = (t, Raise err) /\ caught_by OSError err = true.
Proof.
  unfold transport_failure, connect_failure.
  destruct (connect config srv) as [t [client|err]]; simpl; [discriminate |].
  intros H. now exists t, err.
Qed.

Lemma connect_failure_None (config : Configuration) (srv : Attempt) :
  connect_failure config srv = None ->
  exists t client, connect config srv = (t, Return client).
Proof.
  unfold connect_failure.
  destruct (connect config srv) as [t [client|err]]; simpl; [| discriminate].
  intros _. now exists t, client.
Qed.

(** *** The loop *)

Lemma wait_loop_retry (config : Configuration) (backoff : Z) (srv : Attempt)
    (later : list Attempt) :
  transport_failure config srv = true ->
  exists t,
    timing t = [Sleep backoff; attempt_of config] /\
    waits t = [] /\
    wait_loop config backoff (srv :: later) =
      (t ++ events_of (wait_loop config (Z.min 120 (2 * Z.max 1 backoff)) later),
       backoff_of (wait_loop config (Z.min 120 (2 * Z.max 1 backoff)) later),
       outcome_of (wait_loop config (Z.min 120 (2 * Z.max 1 backoff)) later)).
Proof.
  intros Hf. apply transport_failure_inv in Hf as (t & err & Hc & He).
  pose proof (iteration_timing config backoff srv) as Ht.
  pose proof (connect_waits config srv) as Hw. rewrite Hc in Hw.
  cbn [wait_loop]. rewrite (iteration_retry _ _ _ _ _ Hc He) in *.
  eexists. split; [exact Ht |]. split.
  - cbn [fst waits List.filter]. fold (waits (t ++ [Print Stderr
      (retry_msg err (Z.min 120 (2 * Z.max 1 backoff)))])).
    rewrite waits_app. simpl in Hw. rewrite Hw. reflexivity.
  - now destruct (wait_loop config _ later) as [[t' b'] o'].
Qed.

(** After [k] failures, a run of further failures. *)
Lemma wait_loop_failures (config : Configuration) (fails later : list Attempt)
    (k : nat) :
  Forall (fun srv => transport_failure config srv = true) fails ->
  exists t,
    timing t = flat_map (fun i => [Sleep (backoff_after i); attempt_of config])
                 (seq k (length fails)) /\
    waits t = [] /\
    wait_loop config (backoff_after k) (fails ++ later) =
      (t ++ events_of (wait_loop config (backoff_after (k + length fails)) later),
       backoff_of (wait_loop config (backoff_after (k + length fails)) later),
       outcome_of (wait_loop config (backoff_after (k + length fails)) later)).
Proof.
  intros Hall. revert k. induction Hall as [|srv fails Hsrv _ IH]; intros k.
  - exists []. split; [reflexivity |]. split; [reflexivity |].
    rewrite Nat.add_0_r. simpl.
    now destruct (wait_loop config (backoff_after k) later) as [[t b] o].
  - destruct (wait_loop_retry config (backoff_after k) srv (fails ++ later) Hsrv)
      as (t1 & Ht1 & Hw1 & Hloop).
    destruct (IH (S k)) as (t2 & Ht2 & Hw2 & Hrest).
    change (Z.min 120 (2 * Z.max 1 (backoff_after k)))
      with (backoff_after (S k)) in Hloop.
    exists (t1 ++ t2). split; [| split].
    + rewrite timing_app, Ht1, Ht2. reflexivity.
    + rewrite waits_app, Hw1, Hw2. reflexivity.
    + change ((srv :: fails) ++ later) with (srv :: fails ++ later).
      rewrite Hloop, Hrest. unfold events_of, backoff_of, outcome_of. simpl.
      replace (k + S (length fails))%nat with (S k + length fails)%nat by lia.
      now rewrite app_assoc.
Qed.

Lemma wait_loop_propagate (config : Configuration) (backoff : Z)
    (srv : Attempt) (later : list Attempt) (t : list event) (err : exn) :
  connect config srv = (t, Raise err) ->
  caught_by OSError err = false ->
  wait_loop config backoff (srv :: later)
    = (Sleep backoff :: t, backoff, Raised err).
Proof.
  intros Hc He. cbn [wait_loop].
  now rewrite (iteration_propagate _ _ _ _ _ Hc He).
Qed.

Lemma wait_loop_connected (config : Configuration) (backoff : Z)
    (srv : Attempt) (later : list Attempt) (t : list event) (client : Client) :
  connect config srv = (t, Return client) ->
  wait_loop config backoff (srv :: later) =
    match on_notify srv with
    | None =>
        (Sleep backoff :: t
           ++ watch_events (client_socket client)
                (if negb (length (select [client_socket client] 900) =? 0)%nat
                 then lit "Got change" else lit "Timeout"),
         0, Returned)
    | Some err =>
        (Sleep backoff :: t ++ [Print Stdout (lit "connected"); notify_command],
         0, Raised err)
    end.
Proof.
  intros Hc. cbn [wait_loop]. rewrite (iteration_connected _ _ _ _ _ Hc).
  now destruct (on_notify srv).
Qed.

Lemma wait_loop_connected_timing (config : Configuration) (backoff : Z)
    (srv : Attempt) (later : list Attempt) :
  connect_failure config srv = None ->
  timing (events_of (wait_loop config backoff (srv :: later)))
    = [Sleep backoff; attempt_of config] /\
  backoff_of (wait_loop config backoff (srv :: later)) = 0.
Proof.
  intros Hok. apply connect_failure_None in Hok as (t & client & Hc).
  pose proof (iteration_timing config backoff srv) as Ht.
  rewrite (iteration_connected _ _ _ _ _ Hc) in Ht.
  rewrite (wait_loop_connected _ _ _ _ _ _ Hc).
  destruct (on_notify srv); split; try reflexivity; exact Ht.
Qed.

(** C1. The loop starts with [backoff = 0]; a connection attempt that
    fails with an [OSError] turns [backoff] into
    [min(120, 2 * max(1, backoff))], so that consecutive failures give
    0, 2, 4, 8, 16, 32, 64, 120, 120, 120, ...; a successful connection
    sets [backoff] to 0; and every connection attempt comes right after
    one sleep of [backoff] seconds, which is 0 for the first. *)
Theorem backoff_schedule (config : Configuration) (fails later : list Attempt)
    (ok : Attempt) :
  Forall (fun srv => transport_failure config srv = true) fails ->
  connect_failure config ok = None ->
  List.map backoff_after (seq 0 10) = [0; 2; 4; 8; 16; 32; 64; 120; 120; 120] /\
  (forall k, (7 <= k)%nat -> backoff_after k = 120) /\
  (forall k, backoff_after (S k) = Z.min 120 (2 * Z.max 1 (backoff_after k))) /\
  (forall b srv, transport_failure config srv = true ->
     snd (fst (iteration config b srv)) = Z.min 120 (2 * Z.max 1 b) /\
     snd (iteration config b srv) = Continue) /\
  (forall b, snd (fst (iteration config b ok)) = 0) /\
  (forall b srv,
     timing (fst (fst (iteration config b srv))) = [Sleep b; attempt_of config]) /\
  timing (events_of (wait_for_change config fails))
    = schedule config (length fails) /\
  backoff_of (wait_for_change config fails) = backoff_after (length fails) /\
  outcome_of (wait_for_change config fails) = Retrying /\
  timing (events_of (wait_for_change config (fails ++ ok :: later)))
    = schedule config (S (length fails)) /\
  backoff_of (wait_for_change config (fails ++ ok :: later)) = 0.
Proof.
  intros Hfails Hok.
  split; [reflexivity |].
  split; [exact backoff_after_cap |].
  split; [reflexivity |].
  split.
  { intros b srv Hf. apply transport_failure_inv in Hf as (t & err & Hc & He).
    now rewrite (iteration_retry _ _ _ _ _ Hc He). }
  split.
  { intros b. destruct (connect_failure_None _ _ Hok) as (t & client & Hc).
    rewrite (iteration_connected _ _ _ _ _ Hc). now destruct (on_notify ok). }
  split; [apply iteration_timing |].
  unfold wait_for_change, schedule.
  destruct (wait_loop_failures config fails [] 0 Hfails)
    as (t1 & Ht1 & _ & H1).
  destruct (wait_loop_failures config fails (ok :: later) 0 Hfails)
    as (t2 & Ht2 & _ & H2).
  rewrite app_nil_r in H1. change (backoff_after 0) with 0 in H1, H2.
  rewrite H1, H2. unfold events_of, backoff_of, outcome_of.
  cbn [fst snd Nat.add].
  destruct (wait_loop_connected_timing config (backoff_after (length fails))
              ok later Hok) as [Ht Hb].
  unfold events_of, backoff_of in Ht, Hb.
  rewrite !timing_app, Ht1, Ht2, Ht, Hb.
  cbn [wait_loop fst snd timing List.filter]. rewrite app_nil_r.
  repeat split; try reflexivity.
  rewrite seq_S, flat_map_app. reflexivity.
Qed.

(** ** The process *)

Lemma main_configured (w : World) (argv : list str) (environ : gmap str str)
    (tc : list event) (config : Configuration) :
  read_configuration (run_shell w) (files w) (config_file w argv environ)
    = (tc, Return config) ->
  main w argv environ =
    (register_notify :: tc
       ++ events_of (wait_for_change config (server_script w)),
     exit_of (outcome_of (wait_for_change config (server_script w)))).
Proof.
  intros Hc. unfold main. rewrite Hc. cbn [call].
  now destruct (wait_for_change config (server_script w)) as [[t b] []].
Qed.

Lemma main_config_error (w : World) (argv : list str) (environ : gmap str str)
    (tc : list event) (err : exn) :
  read_configuration (run_shell w) (files w) (config_file w argv environ)
    = (tc, Raise err) ->
  caught_by ConfigError err = true ->
  main w argv environ =
    (register_notify :: tc
       ++ [Print Stdout (lit "Error reading configuration: " ++ exn_str err)],
     Exit 1).
Proof. intros Hc He. unfold main. rewrite Hc, He. reflexivity. Qed.

Lemma main_other_error (w : World) (argv : list str) (environ : gmap str str)
    (tc : list event) (err : exn) :
  read_configuration (run_shell w) (files w) (config_file w argv environ)
    = (tc, Raise err) ->
  caught_by ConfigError err = false ->
  main w argv environ = (register_notify :: tc, Traceback err).
Proof. intros Hc He. unfold main. rewrite Hc, He. reflexivity. Qed.

(** C2. When [connect] raises, the loop goes on to the next attempt,
    with the delay grown, exactly when the exception is of the
    [OSError] family; any other exception, such as the [IMAP4.error] of
    a refused login, leaves the loop at once and ends the process. *)
Theorem only_oserror_is_retried (config : Configuration) (backoff : Z)
    (srv : Attempt) (later : list Attempt) (t : list event) (err : exn) :
  connect config srv = (t, Raise err) ->
  (caught_by OSError err = true ->
     iteration config backoff srv =
       (Sleep backoff :: t
          ++ [Print Stderr (retry_msg err (Z.min 120 (2 * Z.max 1 backoff)))],
        Z.min 120 (2 * Z.max 1 backoff), Continue) /\
     wait_loop config backoff (srv :: later) =
       ((Sleep backoff :: t
           ++ [Print Stderr (retry_msg err (Z.min 120 (2 * Z.max 1 backoff)))])
          ++ events_of (wait_loop config (Z.min 120 (2 * Z.max 1 backoff)) later),
        backoff_of (wait_loop config (Z.min 120 (2 * Z.max 1 backoff)) later),
        outcome_of (wait_loop config (Z.min 120 (2 * Z.max 1 backoff)) later))) /\
  (caught_by OSError err = false ->
     iteration config backoff srv = (Sleep backoff :: t, backoff, Propagate err) /\
     wait_loop config backoff (srv :: later)
       = (Sleep backoff :: t, backoff, Raised err) /\
     forall (w : World) (argv : list str) (environ : gmap str str)
            (tc : list event) (fails : list Attempt),
       read_configuration (run_shell w) (files w) (config_file w argv environ)
         = (tc, Return config) ->
       Forall (fun a => transport_failure config a = true) fails ->
       server_script w = fails ++ srv :: later ->
       snd (main w argv environ) = Traceback err) /\
  (snd (iteration config backoff srv) = Continue
   <-> caught_by OSError err = true).
Proof.
  intros Hc. split; [| split].
  - intros He. split; [now apply iteration_retry |].
    cbn [wait_loop]. rewrite (iteration_retry _ _ _ _ _ Hc He).
    now destruct (wait_loop config _ later) as [[t' b'] o'].
  - intros He. split; [now apply iteration_propagate |].
    split; [now apply wait_loop_propagate |].
    intros w argv environ tc fails Hcfg Hfails Hscript.
    rewrite (main_configured _ _ _ _ _ Hcfg), Hscript. cbn [snd].
    unfold wait_for_change.
    destruct (wait_loop_failures config fails (srv :: later) 0 Hfails)
      as (t1 & _ & _ & H1).
    change (backoff_after 0) with 0 in H1. rewrite H1.
    rewrite (wait_loop_propagate _ _ _ _ _ _ Hc He). reflexivity.
  - destruct (caught_by OSError err) eqn:He.
    + rewrite (iteration_retry _ _ _ _ _ Hc He). now split.
    + rewrite (iteration_propagate _ _ _ _ _ Hc He). split; discriminate.
Qed.

(** C7. With a session established (and the [NOTIFY SET] command
    answered), the loop waits once: one [select] on the session's
    socket with a timeout of 900 seconds, then "Got change" if the
    socket was readable before the timeout and "Timeout" if it was not;
    either way the loop returns and no further connection is made,
    whatever the server would have answered next. *)
Theorem single_wait_cycle (config : Configuration) (backoff : Z)
    (srv : Attempt) (later : list Attempt) (t : list event) (client : Client) :
  connect config srv = (t, Return client) ->
  on_notify srv = None ->
  (forall at_, readable_at (client_socket client) = Some at_ -> at_ < 900 ->
     wait_loop config backoff (srv :: later) =
       (Sleep backoff :: t
          ++ watch_events (client_socket client) (lit "Got change"),
        0, Returned)) /\
  ((readable_at (client_socket client) = None \/
    exists at_, readable_at (client_socket client) = Some at_ /\ 900 <= at_) ->
     wait_loop config backoff (srv :: later) =
       (Sleep backoff :: t
          ++ watch_events (client_socket client) (lit "Timeout"),
        0, Returned)) /\
  outcome_of (wait_loop config backoff (srv :: later)) = Returned /\
  waits (events_of (wait_loop config backoff (srv :: later)))
    = [Select [client_socket client] 900] /\
  timing (events_of (wait_loop config backoff (srv :: later)))
    = [Sleep backoff; attempt_of config] /\
  (forall later',
     wait_loop config backoff (srv :: later')
       = wait_loop config backoff (srv :: later)) /\
  (forall (w : World) (argv : list str) (environ : gmap str str)
          (tc : list event) (fails : list Attempt),
     read_configuration (run_shell w) (files w) (config_file w argv environ)
       = (tc, Return config) ->
     Forall (fun a => transport_failure config a = true) fails ->
     server_script w = fails ++ srv :: later ->
     snd (main w argv environ) = Exit 0 /\
     waits (fst (main w argv environ)) = [Select [client_socket client] 900] /\
     timing (fst (main w argv environ)) = schedule config (S (length fails))).
Proof.
  intros Hc Hn.
  assert (Hsel : forall b l, wait_loop config b (srv :: l) =
            (Sleep b :: t ++ watch_events (client_socket client)
               (if negb (length (select [client_socket client] 900) =? 0)%nat
                then lit "Got change" else lit "Timeout"), 0, Returned)).
  { intros b l. rewrite (wait_loop_connected config b srv l t client Hc).
    now rewrite Hn. }
  pose proof (connect_timing config srv) as Hct.
  pose proof (connect_waits config srv) as Hcw.
  rewrite Hc in Hct, Hcw. cbn [fst] in Hct, Hcw.
  assert (Hwaits : forall b report,
            waits (Sleep b :: t ++ watch_events (client_socket client) report)
            = [Select [client_socket client] 900]).
  { intros b report. change (Sleep b :: ?l) with ([Sleep b] ++ l).
    rewrite !waits_app, Hcw. reflexivity. }
  assert (Htiming : forall b report,
            timing (Sleep b :: t ++ watch_events (client_socket client) report)
            = [Sleep b; attempt_of config]).
  { intros b report. change (Sleep b :: ?l) with ([Sleep b] ++ l).
    rewrite !timing_app, Hct. reflexivity. }
  split; [| split; [| split; [| split; [| split; [| split]]]]].
  - intros at_ Hat Hlt. rewrite Hsel. unfold select. simpl. rewrite Hat.
    apply Z.ltb_lt in Hlt. rewrite Hlt. reflexivity.
  - intros Hno. rewrite Hsel. unfold select. simpl.
    destruct Hno as [Hno | (at_ & Hat & Hge)]; rewrite ?Hno, ?Hat.
    + reflexivity.
    + apply Z.ltb_ge in Hge. rewrite Hge. reflexivity.
  - now rewrite Hsel.
  - rewrite Hsel. apply Hwaits.
  - rewrite Hsel. apply Htiming.
  - intros later'. now rewrite !Hsel.
  - intros w argv environ tc fails Hcfg Hfails Hscript.
    rewrite (main_configured _ _ _ _ _ Hcfg), Hscript. cbn [fst snd].
    unfold wait_for_change.
    destruct (wait_loop_failures config fails (srv :: later) 0 Hfails)
      as (t1 & Ht1 & Hw1 & H1).
    change (backoff_after 0) with 0 in H1. rewrite H1, Hsel.
    unfold events_of, outcome_of. cbn [fst snd exit_of Nat.add].
    pose proof (read_configuration_no_print _ _ _ _ _ Hcfg) as Hruns.
    assert (Htc : timing tc = [] /\ waits tc = []).
    { clear -Hruns. induction Hruns as [|ev tc' (cmd & ->) _ [IH1 IH2]];
        [split; reflexivity |]. simpl. now rewrite IH1, IH2. }
    destruct Htc as [Htt Htw].
    split; [reflexivity |]. split.
    + change (register_notify :: ?l) with ([register_notify] ++ l).
      rewrite !waits_app, Htw, Hw1, Hwaits. reflexivity.
    + change (register_notify :: ?l) with ([register_notify] ++ l).
      rewrite !timing_app, Htt, Ht1, Htiming. unfold schedule.
      rewrite seq_S, flat_map_app. reflexivity.
Qed.

(** ** Resolving the configuration *)

(** C3. [get_encryption] reads the flag [imaps], false when absent, and
    the flag [starttls], [not imaps] when absent.  With both true it
    raises [ImapError]; otherwise the mode is IMAPS when [imaps] is
    true, else STARTTLS when [starttls] is true, else NONE: a section
    whose flags resolve and are not both true gets exactly one mode. *)
Theorem encryption_resolution (section : gmap str str) (imaps starttls : bool) :
  getboolean section (lit "imaps") false = Return imaps ->
  getboolean section (lit "starttls") (negb imaps) = Return starttls ->
  (section !! lit "imaps" = None -> imaps = false) /\
  (section !! lit "starttls" = None -> starttls = negb imaps) /\
  (imaps = true -> starttls = true ->
     get_encryption section
       = raise ImapError (lit "You cannot enable both starttls and imaps")) /\
  (imaps && starttls = false ->
     get_encryption section
       = Return (if imaps then IMAPS else if starttls then STARTTLS else NONE) /\
     exists! mode, get_encryption section = Return mode).
Proof.
  intros Hi Hs.
  pose proof (get_encryption_of_flags section imaps starttls Hi Hs) as He.
  split; [| split; [| split]].
  - intros Habs. rewrite (getboolean_absent _ _ _ Habs) in Hi. congruence.
  - intros Habs. rewrite (getboolean_absent _ _ _ Habs) in Hs. congruence.
  - intros Hti Hts. rewrite He, Hti, Hts. reflexivity.
  - intros Hnot. rewrite He, Hnot. split; [reflexivity |].
    eexists. split; [reflexivity |]. now intros mode [= <-].
Qed.

(** C4. A configured port that reads as the integer [p] is accepted
    exactly when [1 <= p <= 65534]; outside that range [get_port]
    raises [ImapError].  Every integer can be configured, as its
    decimal writing. *)
Theorem port_range (section : gmap str str) (default_port : Z) (raw : str)
    (p : Z) :
  section !! lit "port" = Some raw ->
  int_of_str raw = Some p ->
  (1 <= p <= 65534 -> get_port section default_port = Return p) /\
  (~ 1 <= p <= 65534 ->
     get_port section default_port = raise ImapError (out_of_range_msg p)) /\
  ((exists v, get_port section default_port = Return v) <-> 1 <= p <= 65534) /\
  int_of_str (str_of_int p) = Some p.
Proof.
  intros Hraw Hp.
  pose proof (get_port_of_raw section default_port raw Hraw) as H.
  rewrite Hp in H. pose proof (in_range_iff p) as Hr.
  destruct (in_range 1 65535 p) eqn:E.
  - assert (Hin : 1 <= p <= 65534) by now apply Hr.
    split; [intros _; exact H |]. split; [intros Hout; contradiction |].
    split; [| apply int_of_str_of_int].
    split; [intros _; exact Hin | intros _; now exists p].
  - assert (Hout : ~ 1 <= p <= 65534)
      by (intros Hin; apply Hr in Hin; discriminate).
    split; [intros Hin; contradiction |]. split; [intros _; exact H |].
    split; [| apply int_of_str_of_int].
    split; [| intros Hin; contradiction].
    intros [v Hv]. rewrite H in Hv. discriminate.
Qed.

(** Whatever the section, a port that does not read as an integer ends
    [get_port] with [UnboundLocalError]: the handler of [ValueError]
    formats [port], which was never bound. *)
Lemma get_port_not_integer (section : gmap str str) (default_port : Z)
    (raw : str) :
  section !! lit "port" = Some raw ->
  int_of_str raw = None ->
  exists msg, get_port section default_port = raise UnboundLocalError msg /\
              caught_by ImapError (mk_exn UnboundLocalError msg) = false.
Proof.
  intros Hraw Hp. rewrite (get_port_of_raw _ _ _ Hraw), Hp.
  eexists. split; reflexivity.
Qed.

(** C9. Without a [port] option the port of the configuration is 993
    when the mode is IMAPS and 143 when it is STARTTLS or NONE. *)
Theorem absent_port_default (shell : str -> CompletedProcess)
    (read_ini : str -> Py (gmap str (gmap str str))) (path : str)
    (parser : gmap str (gmap str str)) (imap : gmap str str) :
  read_ini path = Return parser ->
  parser !! lit "imap" = Some imap ->
  imap !! lit "port" = None ->
  (forall mode, get_encryption imap = Return mode ->
     get_port imap (if bool_decide (mode = IMAPS) then 993 else 143)
       = Return (match mode with IMAPS => 993 | STARTTLS | NONE => 143 end)) /\
  (forall t config,
     read_configuration shell read_ini path = (t, Return config) ->
     port config = match encryption config with
                   | IMAPS => 993
                   | STARTTLS | NONE => 143
                   end) /\
  (forall h u pw mode d t,
     imap !! lit "host" = Some h -> h <> [] ->
     imap !! lit "username" = Some u -> u <> [] ->
     get_encryption imap = Return mode ->
     get_password shell imap = (t, Return pw) ->
     getboolean imap (lit "debug") false = Return d ->
     read_configuration shell read_ini path =
       (t, Return (mk_Configuration h
                     (match mode with IMAPS => 993 | STARTTLS | NONE => 143 end)
                     u pw mode d))).
Proof.
  intros Hp Hi Hport.
  assert (Hdef : forall mode,
            get_port imap (if bool_decide (mode = IMAPS) then 993 else 143)
            = Return (match mode with IMAPS => 993 | STARTTLS | NONE => 143 end)).
  { intros mode. rewrite (get_port_absent _ _ Hport). now destruct mode. }
  split; [intros mode _; apply Hdef |]. split.
  - intros t config Hcfg.
    apply read_configuration_Return in Hcfg
      as (parser' & imap' & Hp' & Hi' & _ & _ & _ & _ & _ & Hgp & _).
    rewrite Hp in Hp'. injection Hp' as <-.
    rewrite Hi in Hi'. injection Hi' as <-.
    rewrite Hdef in Hgp. now injection Hgp.
  - intros h u pw mode d t Hh Hhne Hu Hune He Hpw Hd.
    now apply (read_configuration_intro shell read_ini path parser imap).
Qed.

Section Secret.

Variable shell : str -> CompletedProcess.

(** C6. With both [password] and [password_command] set, and with
    neither set, [get_password] raises [ConfigError].  With the command
    alone, a non-zero exit status gives a [ConfigError] whose message
    has the status in it, and a zero status gives the command's output
    without its trailing white space.  (An option is set when it has a
    value that is not empty; the output is text when it decodes.) *)
Theorem secret_resolution (section : gmap str str) :
  (truthy (section !! lit "password") = true ->
   truthy (section !! lit "password_command") = true ->
   get_password shell section = ([], raise ConfigError exclusive_msg)) /\
  (truthy (section !! lit "password") = false ->
   truthy (section !! lit "password_command") = false ->
   get_password shell section = ([], raise ConfigError no_password_msg)) /\
  (forall cmd,
     truthy (section !! lit "password") = false ->
     section !! lit "password_command" = Some cmd -> cmd <> [] ->
     (returncode (shell cmd) <> 0 ->
        get_password shell section =
          ([Run cmd],
           raise ConfigError
             (lit "Password command '" ++ cmd ++ lit "' exited with "
                  ++ str_of_int (returncode (shell cmd)))) /\
        int_of_str (str_of_int (returncode (shell cmd)))
          = Some (returncode (shell cmd))) /\
     (forall text,
        returncode (shell cmd) = 0 ->
        decode_utf8 (stdout (shell cmd)) = Some text ->
        get_password shell section = ([Run cmd], Return (rstrip text)) /\
        (exists ws, text = rstrip text ++ ws /\
                    Forall (fun c => isspace c = true) ws) /\
        (forall c, last (rstrip text) = Some c -> isspace c = false))).
Proof.
  split; [apply get_password_both |]. split; [apply get_password_neither |].
  intros cmd Hp Hc Hne.
  pose proof (get_password_command shell section cmd Hp Hc Hne) as H.
  split.
  - intros Hrc. apply Z.eqb_neq in Hrc. rewrite Hrc in H.
    split; [exact H | apply int_of_str_of_int].
  - intros text Hrc Hdec. rewrite Hrc, Hdec in H. simpl in H.
    split; [exact H |]. split; [apply rstrip_suffix | apply rstrip_last].
Qed.


End Secret.

(** ** Examples *)

Lemma example_read_configuration :
  read_configuration example_shell example_files (lit "/etc/imap-notify.ini")
    = ([], Return example_config).
Proof. reflexivity. Qed.

Lemma backoff_schedule_witness :
  timing (events_of (wait_for_change example_config
                       ([refused; refused] ++ accepted :: [])))
    = [Sleep 0; Open IMAP4 (lit "mail.example.com") 143;
       Sleep 2; Open IMAP4 (lit "mail.example.com") 143;
       Sleep 4; Open IMAP4 (lit "mail.example.com") 143] /\
  backoff_of (wait_for_change example_config
                ([refused; refused] ++ accepted :: [])) = 0.
Proof.
  destruct (backoff_schedule example_config [refused; refused] [] accepted)
    as (_ & _ & _ & _ & _ & _ & _ & _ & _ & Ht & Hb).
  - repeat constructor.
  - reflexivity.
  - split; [exact Ht | exact Hb].
Defined.

Lemma only_oserror_is_retried_witness :
  caught_by OSError login_rejected = false /\
  wait_loop example_config 0 [bad_login; accepted]
    = ([Sleep 0; Open IMAP4 (lit "mail.example.com") 143; Starttls;
        Login (lit "alice") (lit "secret")], 0, Raised login_rejected) /\
  snd (main (example_world [refused; bad_login; accepted]) argv_etc ∅)
    = Traceback login_rejected.
Proof.
  destruct (only_oserror_is_retried example_config 0 bad_login [accepted]
              [Open IMAP4 (lit "mail.example.com") 143; Starttls;
               Login (lit "alice") (lit "secret")] login_rejected eq_refl)
    as (_ & H & _).
  destruct (H eq_refl) as (_ & Hloop & Hmain).
  split; [reflexivity |]. split; [exact Hloop |].
  apply (Hmain (example_world [refused; bad_login; accepted]) argv_etc ∅ []
           [refused]).
  - reflexivity.
  - repeat constructor.
  - reflexivity.
Defined.

Lemma encryption_resolution_witness :
  get_encryption (section_of [("imaps", "yes")]%string) = Return IMAPS /\
  get_encryption (section_of [("imaps", "yes"); ("starttls", "true")]%string)
    = raise ImapError (lit "You cannot enable both starttls and imaps").
Proof.
  split.
  - destruct (encryption_resolution (section_of [("imaps", "yes")]%string)
                true false eq_refl eq_refl) as (_ & _ & _ & H).
    destruct (H eq_refl) as [Hmode _]. exact Hmode.
  - destruct (encryption_resolution
                (section_of [("imaps", "yes"); ("starttls", "true")]%string)
                true true eq_refl eq_refl) as (_ & _ & H & _).
    exact (H eq_refl eq_refl).
Defined.

Lemma port_range_witness :
  get_port (section_of [("port", "65534")]%string) 143 = Return 65534 /\
  get_port (section_of [("port", "65535")]%string) 143
    = raise ImapError (out_of_range_msg 65535) /\
  get_port (section_of [("port", "0")]%string) 143
    = raise ImapError (out_of_range_msg 0).
Proof.
  split; [| split].
  - destruct (port_range (section_of [("port", "65534")]%string) 143
                (lit "65534") 65534 eq_refl eq_refl) as (H & _).
    apply H. lia.
  - destruct (port_range (section_of [("port", "65535")]%string) 143
                (lit "65535") 65535 eq_refl eq_refl) as (_ & H & _).
    apply H. lia.
  - destruct (port_range (section_of [("port", "0")]%string) 143
                (lit "0") 0 eq_refl eq_refl) as (_ & H & _).
    apply H. lia.
Defined.

(** C5 (defect).  A port that is not an integer, here [port = abc],
    does not end in [ImapError]: the handler of [ValueError] reads the
    local [port], which [int] never bound, and [UnboundLocalError]
    comes out instead; it is not an [ImapError]. *)
Theorem port_not_integer_unbound_local :
  int_of_str (lit "abc") = None /\
  get_port (section_of [("port", "abc")]%string) 143
    = raise UnboundLocalError
        (lit "cannot access local variable 'port' where it is not associated with a value") /\
  issubclass UnboundLocalError ImapError = false /\
  issubclass UnboundLocalError ConfigError = false.
Proof. repeat split. Qed.

(** C8 (defect).  Started on a path with no file, the process reports
    the missing section and exits with status 1, but the message goes to
    standard output: nothing is written to standard error. *)
Theorem config_error_goes_to_stdout :
  main (example_world []) argv_none ∅
    = ([register_notify;
        Print Stdout (lit "Error reading configuration: No imap section found")],
       Exit 1) /\
  Forall (fun ev => forall text, ev <> Print Stderr text)
    (fst (main (example_world []) argv_none ∅)).
Proof.
  split; [reflexivity |].
  change (fst (main (example_world []) argv_none ∅))
    with [register_notify;
          Print Stdout (lit "Error reading configuration: No imap section found")].
  repeat constructor; discriminate.
Qed.

Lemma absent_port_default_witness :
  port example_config = 143 /\
  get_port (section_of (("imaps", "yes")%string :: account)) 993 = Return 993.
Proof.
  split.
  - destruct (absent_port_default example_shell example_files
                (lit "/etc/imap-notify.ini")
                {[ lit "imap" := section_of account ]} (section_of account)
                eq_refl eq_refl eq_refl) as (_ & H & _).
    exact (H [] example_config example_read_configuration).
  - destruct (absent_port_default example_shell
                (fun _ => Return
                   {[ lit "imap" := section_of (("imaps", "yes")%string :: account) ]})
                []
                {[ lit "imap" := section_of (("imaps", "yes")%string :: account) ]}
                (section_of (("imaps", "yes")%string :: account)))
      as (H & _); [reflexivity | reflexivity | reflexivity |].
    exact (H IMAPS eq_refl).
Defined.

Lemma secret_resolution_witness :
  get_password example_shell
    (section_of [("password", "secret"); ("password_command", "pass show mail")]%string)
    = ([], raise ConfigError exclusive_msg) /\
  get_password example_shell (section_of [("host", "mail.example.com")]%string)
    = ([], raise ConfigError no_password_msg) /\
  get_password example_shell (section_of [("password_command", "false")]%string)
    = ([Run (lit "false")],
       raise ConfigError (lit "Password command 'false' exited with 3")) /\
  get_password example_shell
    (section_of [("password_command", "pass show mail")]%string)
    = ([Run (lit "pass show mail")], Return (lit "hunter2")).
Proof.
  split; [| split; [| split]].
  - destruct (secret_resolution example_shell
                (section_of [("password", "secret");
                             ("password_command", "pass show mail")]%string))
      as (H & _).
    exact (H eq_refl eq_refl).
  - destruct (secret_resolution example_shell
                (section_of [("host", "mail.example.com")]%string))
      as (_ & H & _).
    exact (H eq_refl eq_refl).
  - destruct (secret_resolution example_shell
                (section_of [("password_command", "false")]%string))
      as (_ & _ & H).
    destruct (H (lit "false") eq_refl eq_refl) as [Hfail _]; [discriminate |].
    destruct Hfail as [Hfail _]; [discriminate | exact Hfail].
  - destruct (secret_resolution example_shell
                (section_of [("password_command", "pass show mail")]%string))
      as (_ & _ & H).
    destruct (H (lit "pass show mail") eq_refl eq_refl) as [_ Hok];
      [discriminate |].
    destruct (Hok (lit "hunter2" ++ [10%N]) eq_refl eq_refl) as [Hget _].
    exact Hget.
Defined.

Lemma single_wait_cycle_witness :
  wait_loop example_config 0 [accepted; refused]
    = ([Sleep 0; Open IMAP4 (lit "mail.example.com") 143; Starttls;
        Login (lit "alice") (lit "secret")]
         ++ watch_events (mk_Socket 4 (Some 5)) (lit "Got change"),
       0, Returned) /\
  wait_loop example_config 0 [silent; refused]
    = ([Sleep 0; Open IMAP4 (lit "mail.example.com") 143; Starttls;
        Login (lit "alice") (lit "secret")]
         ++ watch_events (mk_Socket 4 None) (lit "Timeout"),
       0, Returned).
Proof.
  split.
  - destruct (single_wait_cycle example_config 0 accepted [refused]
                [Open IMAP4 (lit "mail.example.com") 143; Starttls;
                 Login (lit "alice") (lit "secret")]
                (mk_Client (mk_Socket 4 (Some 5)) 0) eq_refl eq_refl)
      as (H & _).
    apply (H 5); [reflexivity | lia].
  - destruct (single_wait_cycle example_config 0 silent [refused]
                [Open IMAP4 (lit "mail.example.com") 143; Starttls;
                 Login (lit "alice") (lit "secret")]
                (mk_Client (mk_Socket 4 None) 0) eq_refl eq_refl)
      as (_ & H & _).
    apply H. left. reflexivity.
Defined.


(** * Further properties *)

(** ** Results of the resolvers *)

Lemma get_port_Return (section : gmap str str) (default_port p : Z) :
  get_port section default_port = Return p -> 1 <= p <= 65534.
Proof.
  destruct (section !! lit "port") as [raw|] eqn:E.
  - rewrite (get_port_of_raw _ _ _ E).
    destruct (int_of_str raw) as [n|]; [| discriminate].
    destruct (in_range 1 65535 n) eqn:R; [| discriminate].
    intros [= <-]. now apply in_range_iff.
  - rewrite (get_port_absent _ _ E).
    destruct (in_range 1 65535 default_port) eqn:R; [| discriminate].
    intros [= <-]. now apply in_range_iff.
Qed.

Lemma get_port_Raise (section : gmap str str) (default_port : Z) (err : exn) :
  get_port section default_port = Raise err ->
  exn_class err = ImapError \/ exn_class err = UnboundLocalError.
Proof.
  destruct (section !! lit "port") as [raw|] eqn:E.
  - rewrite (get_port_of_raw _ _ _ E).
    destruct (int_of_str raw) as [n|].
    + destruct (in_range 1 65535 n); [discriminate |].
      intros [= <-]. now left.
    + intros [= <-]. now right.
  - rewrite (get_port_absent _ _ E).
    destruct (in_range 1 65535 default_port); [discriminate |].
    intros [= <-]. now left.
Qed.

Lemma convert_to_boolean_Raise (value : str) (err : exn) :
  convert_to_boolean value = Raise err -> exn_class err = ValueError.
Proof.
  unfold convert_to_boolean.
  destruct (dict_get BOOLEAN_STATES (lower value)); [discriminate |].
  now intros [= <-].
Qed.

Lemma getboolean_Raise (section : gmap str str) (key : str) (fallback : bool)
    (err : exn) :
  getboolean section key fallback = Raise err -> exn_class err = ValueError.
Proof.
  unfold getboolean. destruct (section !! key); [| discriminate].
  apply convert_to_boolean_Raise.
Qed.

Lemma get_encryption_Raise (section : gmap str str) (err : exn) :
  get_encryption section = Raise err ->
  exn_class err = ImapError \/ exn_class err = ValueError.
Proof.
  unfold get_encryption.
  destruct (getboolean section (lit "imaps") false) as [i|e] eqn:Ei; simpl.
  - destruct (getboolean section (lit "starttls") (negb i)) as [s|e] eqn:Es;
      simpl.
    + destruct s, i; simpl; try discriminate. intros [= <-]. now left.
    + intros [= <-]. right. eapply getboolean_Raise, Es.
  - intros [= <-]. right. eapply getboolean_Raise, Ei.
Qed.

Lemma get_password_trace (shell : str -> CompletedProcess)
    (section : gmap str str) :
  fst (get_password shell section) =
    if negb (truthy (section !! lit "password"))
       && truthy (section !! lit "password_command")
    then [Run (default [] (section !! lit "password_command"))]
    else [].
Proof.
  unfold get_password. rewrite !section_get_None.
  destruct (truthy (section !! lit "password")),
    (truthy (section !! lit "password_command")); simpl; try reflexivity.
  destruct (negb _); simpl; [reflexivity |].
  now destruct (decode_utf8 _).
Qed.

(** X1. A configuration that [read_configuration] returns has the host
    and the user name of the [imap] section, neither of them empty, and
    a port between 1 and 65534.  Its password is either the literal
    [password] of the section, which is not empty, with no command run,
    or, with exactly one command run, the section's [password_command]
    ended with status 0, the decoded output of that command without
    its trailing white space. *)
Theorem returned_configuration_is_sound (shell : str -> CompletedProcess)
    (read_ini : str -> Py (gmap str (gmap str str))) (path : str)
    (t : list event) (config : Configuration) :
  read_configuration shell read_ini path = (t, Return config) ->
  exists parser imap,
    read_ini path = Return parser /\
    parser !! lit "imap" = Some imap /\
    imap !! lit "host" = Some (host config) /\ host config <> [] /\
    imap !! lit "username" = Some (username config) /\
    username config <> [] /\
    1 <= port config <= 65534 /\
    ((t = [] /\
      imap !! lit "password" = Some (password config) /\
      password config <> []) \/
     (exists cmd text,
        t = [Run cmd] /\
        imap !! lit "password_command" = Some cmd /\
        returncode (shell cmd) = 0 /\
        decode_utf8 (stdout (shell cmd)) = Some text /\
        password config = rstrip text)).
Proof.
  intros H.
  apply read_configuration_Return in H
    as (parser & imap & Hp & Hi & Hhost & Hh & Huser & Hu & _ & Hport & Hpw & _).
  exists parser, imap.
  split; [exact Hp |]. split; [exact Hi |].
  split; [exact Hhost |]. split; [exact Hh |].
  split; [exact Huser |]. split; [exact Hu |].
  split; [eapply get_port_Return, Hport |].
  destruct (truthy (imap !! lit "password")) eqn:Ep;
    destruct (truthy (imap !! lit "password_command")) eqn:Ec.
  - rewrite (get_password_both shell imap Ep Ec) in Hpw. discriminate.
  - apply truthy_Some in Ep as (secret & Es & Hne).
    rewrite (get_password_literal shell imap secret Es Hne Ec) in Hpw.
    injection Hpw as <- <-. left. repeat split; assumption.
  - apply truthy_Some in Ec as (cmd & Ecmd & Hne).
    rewrite (get_password_command shell imap cmd Ep Ecmd Hne) in Hpw.
    destruct (returncode (shell cmd) =? 0) eqn:Erc; simpl in Hpw;
      [| discriminate].
    destruct (decode_utf8 (stdout (shell cmd))) as [text|] eqn:Ed;
      [| discriminate].
    injection Hpw as <- <-. apply Z.eqb_eq in Erc.
    right. exists cmd, text. repeat split; assumption.
  - rewrite (get_password_neither shell imap Ep Ec) in Hpw. discriminate.
Qed.

Lemma returned_configuration_is_sound_witness :
  exists imap : gmap str str,
    imap !! lit "host" = Some (host example_config) /\
    1 <= port example_config <= 65534 /\
    imap !! lit "password" = Some (password example_config).
Proof.
  destruct (returned_configuration_is_sound example_shell example_files
              (lit "/etc/imap-notify.ini") [] example_config
              example_read_configuration)
    as (parser & imap & _ & _ & Hh & _ & _ & _ & Hp & Hpw).
  exists imap. split; [exact Hh |]. split; [exact Hp |].
  destruct Hpw as [(_ & Hlit & _) | (cmd & text & Ht & _)];
    [exact Hlit | discriminate Ht].
Defined.

(** X2. Whatever the section and the default, a port that [get_port]
    returns lies between 1 and 65534.  Without a [port] option the
    default goes through [str] and [int] unchanged: a default between
    1 and 65534 is the port returned. *)
Theorem get_port_results (section : gmap str str) (default_port : Z) :
  (forall p, get_port section default_port = Return p -> 1 <= p <= 65534) /\
  (section !! lit "port" = None ->
   1 <= default_port <= 65534 ->
   get_port section default_port = Return default_port).
Proof.
  split; [intros p; apply get_port_Return |].
  intros Habs Hin. rewrite (get_port_absent _ _ Habs).
  apply in_range_iff in Hin. now rewrite Hin.
Qed.

Lemma get_port_results_witness :
  get_port (section_of account) 8143 = Return 8143 /\
  1 <= 8143 <= 65534.
Proof.
  destruct (get_port_results (section_of account) 8143) as (Hret & Hdef).
  assert (H : get_port (section_of account) 8143 = Return 8143)
    by (apply Hdef; [reflexivity | lia]).
  split; [exact H | exact (Hret 8143 H)].
Defined.

(** X3. The connection is in the clear only on request: [get_encryption]
    returns NONE only when the section has a [starttls] option that
    reads as false, and IMAPS only when it has an [imaps] option that
    reads as true.  With neither option the mode is STARTTLS. *)
Theorem plaintext_only_on_request (section : gmap str str) (mode : Encryption) :
  get_encryption section = Return mode ->
  (mode = NONE ->
     exists v, section !! lit "starttls" = Some v /\
               convert_to_boolean v = Return false) /\
  (mode = IMAPS ->
     exists v, section !! lit "imaps" = Some v /\
               convert_to_boolean v = Return true) /\
  (section !! lit "imaps" = None -> section !! lit "starttls" = None ->
     mode = STARTTLS).
Proof.
  intros H. split; [| split].
  - intros ->. unfold get_encryption, getboolean in H.
    destruct (section !! lit "imaps") as [vi|];
      [destruct (convert_to_boolean vi) as [i|]; [| discriminate] |];
      simpl in H;
      (destruct (section !! lit "starttls") as [vs|] eqn:Es;
       [destruct (convert_to_boolean vs) as [s|] eqn:Ecs; [| discriminate] |]);
      simpl in H.
    + destruct s, i; simpl in H; try discriminate. now exists vs.
    + destruct i; discriminate.
    + destruct s; simpl in H; try discriminate. now exists vs.
    + discriminate.
  - intros ->. unfold get_encryption, getboolean in H.
    destruct (section !! lit "imaps") as [vi|] eqn:Ei.
    + destruct (convert_to_boolean vi) as [i|] eqn:Eci; [| discriminate].
      simpl in H. destruct i; [now exists vi |].
      destruct (section !! lit "starttls") as [vs|];
        [destruct (convert_to_boolean vs) as [[]|]; discriminate
        | discriminate].
    + simpl in H.
      destruct (section !! lit "starttls") as [vs|];
        [destruct (convert_to_boolean vs) as [[]|]; discriminate
        | discriminate].
  - intros Hi Hs. rewrite (get_encryption_no_flags section Hi Hs) in H.
    now injection H.
Qed.

Lemma plaintext_only_on_request_witness :
  exists v, section_of [("starttls", "off")]%string !! lit "starttls" = Some v /\
            convert_to_boolean v = Return false.
Proof.
  destruct (plaintext_only_on_request
              (section_of [("starttls", "off")]%string) NONE eq_refl)
    as (H & _).
  exact (H eq_refl).
Defined.

(** ** Errors of [read_configuration] *)

(** X4. A missing [imap] section, then a missing or empty [host], then
    a missing or empty [username] are reported, in this order, as
    [ConfigError], before anything else of the section is looked at and
    without running the password command. *)
Theorem missing_fields_come_first (shell : str -> CompletedProcess)
    (read_ini : str -> Py (gmap str (gmap str str))) (path : str)
    (parser : gmap str (gmap str str)) :
  read_ini path = Return parser ->
  (parser !! lit "imap" = None ->
     read_configuration shell read_ini path
       = ([], raise ConfigError (lit "No imap section found"))) /\
  (forall imap, parser !! lit "imap" = Some imap ->
     truthy (imap !! lit "host") = false ->
     read_configuration shell read_ini path
       = ([], raise ConfigError (lit "No imap host set"))) /\
  (forall imap, parser !! lit "imap" = Some imap ->
     truthy (imap !! lit "host") = true ->
     truthy (imap !! lit "username") = false ->
     read_configuration shell read_ini path
       = ([], raise ConfigError (lit "No imap username set"))).
Proof.
  intros Hp. unfold read_configuration, pure. rewrite Hp. simpl.
  split; [| split].
  - intros Hi. now rewrite Hi.
  - intros imap Hi Hh. rewrite Hi, section_get_None, Hh. reflexivity.
  - intros imap Hi Hh Hu. rewrite Hi, !section_get_None, Hh, Hu. reflexivity.
Qed.

Lemma missing_fields_come_first_witness :
  read_configuration example_shell example_files (lit "/nowhere")
    = ([], raise ConfigError (lit "No imap section found")) /\
  read_configuration example_shell
    (fun _ => Return {[ lit "imap" :=
       section_of [("username", "alice"); ("imaps", "perhaps");
                   ("password_command", "pass show mail")]%string ]})
    (lit "/nowhere")
    = ([], raise ConfigError (lit "No imap host set")).
Proof.
  split.
  - destruct (missing_fields_come_first example_shell example_files
                (lit "/nowhere") ∅ eq_refl) as (H & _).
    exact (H eq_refl).
  - destruct (missing_fields_come_first example_shell
                (fun _ => Return {[ lit "imap" :=
                   section_of [("username", "alice"); ("imaps", "perhaps");
                               ("password_command", "pass show mail")]%string ]})
                (lit "/nowhere") _ eq_refl) as (_ & H & _).
    apply (H _ eq_refl). reflexivity.
Defined.

Lemma read_configuration_resolver_error (shell : str -> CompletedProcess)
    (read_ini : str -> Py (gmap str (gmap str str))) (path : str)
    (parser : gmap str (gmap str str)) (imap : gmap str str) (err : exn) :
  read_ini path = Return parser ->
  parser !! lit "imap" = Some imap ->
  truthy (imap !! lit "host") = true ->
  truthy (imap !! lit "username") = true ->
  (get_encryption imap = Raise err \/
   exists mode, get_encryption imap = Return mode /\
                get_port imap (default_port_of mode) = Raise err) ->
  read_configuration shell read_ini path = ([], Raise err) /\
  caught_by ConfigError err = false.
Proof.
  intros Hp Hi Hh Hu Herr. unfold read_configuration, pure.
  rewrite Hp. simpl. rewrite Hi, !section_get_None, Hh, Hu. simpl.
  destruct Herr as [He | (mode & He & Hport)].
  - rewrite He. simpl. split; [reflexivity |].
    apply get_encryption_Raise in He. destruct err as [cls msg].
    simpl in He. now destruct He as [-> | ->].
  - rewrite He. simpl. unfold default_port_of in Hport. rewrite Hport. simpl.
    split; [reflexivity |].
    apply get_port_Raise in Hport. destruct err as [cls msg].
    simpl in Hport. now destruct Hport as [-> | ->].
Qed.

(** X5. A failure of [get_encryption] or of [get_port] (conflicting TLS
    flags, a flag that is not a boolean, a port out of range or not a
    number) is never a [ConfigError]: [main] does not catch it, prints
    no message of its own and ends with the exception uncaught; the
    password command is not run and no connection is attempted. *)
Theorem resolver_errors_are_uncaught (w : World) (argv : list str)
    (environ : gmap str str) (parser : gmap str (gmap str str))
    (imap : gmap str str) (err : exn) :
  files w (config_file w argv environ) = Return parser ->
  parser !! lit "imap" = Some imap ->
  truthy (imap !! lit "host") = true ->
  truthy (imap !! lit "username") = true ->
  (get_encryption imap = Raise err \/
   exists mode, get_encryption imap = Return mode /\
                get_port imap (default_port_of mode) = Raise err) ->
  caught_by ConfigError err = false /\
  main w argv environ = ([register_notify], Traceback err).
Proof.
  intros Hp Hi Hh Hu Herr.
  destruct (read_configuration_resolver_error (run_shell w) (files w) _ _ _ _
              Hp Hi Hh Hu Herr) as [Hrc Hcls].
  split; [exact Hcls |].
  now rewrite (main_other_error _ _ _ _ _ Hrc Hcls).
Qed.

Lemma resolver_errors_are_uncaught_witness :
  exists err,
    exn_class err = UnboundLocalError /\
    main bad_port_world argv_etc ∅ = ([register_notify], Traceback err).
Proof.
  eexists. split; [| eapply (resolver_errors_are_uncaught bad_port_world
                              argv_etc ∅ _ _ _ eq_refl eq_refl eq_refl eq_refl)].
  2: { right. exists STARTTLS. split; reflexivity. }
  reflexivity.
Defined.

(** ** The secret *)

Section SecretMore.

Variable shell : str -> CompletedProcess.

(** X6. [get_password] runs the configured command at most once, and
    only when there is no literal password: with a literal password
    nothing is run (also when a command is configured too), and a
    literal password on its own is returned as it stands, trailing
    white space included. *)
Theorem command_runs_only_without_literal (section : gmap str str)
    (secret : str) :
  section !! lit "password" = Some secret ->
  secret <> [] ->
  fst (get_password shell section) = [] /\
  (truthy (section !! lit "password_command") = false ->
     get_password shell section = ([], Return secret)) /\
  (forall other cmd,
     In (Run cmd) (fst (get_password shell other)) ->
     truthy (other !! lit "password") = false /\
     other !! lit "password_command" = Some cmd /\
     fst (get_password shell other) = [Run cmd]).
Proof.
  intros Hs Hne. split; [| split].
  - rewrite get_password_trace, Hs, (truthy_nonempty secret Hne). reflexivity.
  - intros Hc. now apply get_password_literal.
  - intros other cmd. rewrite get_password_trace. unfold str in *.
    match goal with
    | |- context [negb (truthy ?x)] => destruct (truthy x); simpl; [tauto |]
    end.
    match goal with
    | |- context [if truthy ?x then _ else _] =>
        destruct (truthy x) eqn:Ec; simpl; [| tauto]
    end.
    apply truthy_Some in Ec as (c & Ec & _). rewrite Ec. simpl.
    intros [[= <-] | []]. repeat split.
Qed.

(** X7. The secret that [get_password] returns is empty in one case
    only: the command ran, ended with status 0, and printed nothing but
    white space. *)
Theorem empty_secret_only_from_command (section : gmap str str)
    (t : list event) :
  get_password shell section = (t, Return (lit EmptyString)) <->
  exists cmd text,
    truthy (section !! lit "password") = false /\
    section !! lit "password_command" = Some cmd /\ cmd <> [] /\
    t = [Run cmd] /\
    returncode (shell cmd) = 0 /\
    decode_utf8 (stdout (shell cmd)) = Some text /\
    Forall (fun c => isspace c = true) text.
Proof.
  change (lit EmptyString) with (@nil N). split.
  - intros H.
    destruct (truthy (section !! lit "password")) eqn:Ep;
      destruct (truthy (section !! lit "password_command")) eqn:Ec.
    + rewrite (get_password_both shell section Ep Ec) in H. discriminate.
    + apply truthy_Some in Ep as (secret & Es & Hne).
      rewrite (get_password_literal shell section secret Es Hne Ec) in H.
      injection H as _ ->. congruence.
    + apply truthy_Some in Ec as (cmd & Ecmd & Hne).
      rewrite (get_password_command shell section cmd Ep Ecmd Hne) in H.
      destruct (returncode (shell cmd) =? 0) eqn:Erc; simpl in H;
        [| discriminate].
      destruct (decode_utf8 (stdout (shell cmd))) as [text|] eqn:Ed;
        [| discriminate].
      injection H as <- Hr.
      exists cmd, text. apply Z.eqb_eq in Erc.
      repeat split; try assumption. now apply rstrip_nil_iff.
    + rewrite (get_password_neither shell section Ep Ec) in H. discriminate.
  - intros (cmd & text & Hp & Hc & Hne & -> & Hrc & Hd & Hall).
    rewrite (get_password_command shell section cmd Hp Hc Hne), Hrc, Hd.
    simpl. apply rstrip_nil_iff in Hall. now rewrite Hall.
Qed.

End SecretMore.

Lemma command_runs_only_without_literal_witness :
  fst (get_password example_shell
         (section_of [("password", "secret ");
                      ("password_command", "pass show mail")]%string)) = [] /\
  get_password example_shell (section_of [("password", "secret ")]%string)
    = ([], Return (lit "secret ")).
Proof.
  split.
  - destruct (command_runs_only_without_literal example_shell
                (section_of [("password", "secret ");
                             ("password_command", "pass show mail")]%string)
                (lit "secret ") eq_refl) as (H & _); [discriminate |].
    exact H.
  - destruct (command_runs_only_without_literal example_shell
                (section_of [("password", "secret ")]%string)
                (lit "secret ") eq_refl) as (_ & H & _); [discriminate |].
    exact (H eq_refl).
Defined.

Lemma empty_secret_only_from_command_witness :
  get_password blank_shell (section_of [("password_command", "echo")]%string)
    = ([Run (lit "echo")], Return (lit EmptyString)).
Proof.
  apply (empty_secret_only_from_command blank_shell).
  exists (lit "echo"), [10%N].
  repeat split; try reflexivity; [discriminate | repeat constructor].
Defined.

(** ** [connect], call by call *)

Lemma connect_cases (config : Configuration) (srv : Attempt) :
  connect config srv =
    match on_open srv with
    | Some err => ([attempt_of config], Raise err)
    | None =>
        match (if bool_decide (encryption config = STARTTLS)
               then on_starttls srv else None) with
        | Some err => ([attempt_of config; Starttls], Raise err)
        | None =>
            (connect_plan config,
             match on_login srv with
             | Some err => Raise err
             | None =>
                 Return (mk_Client (socket_ srv)
                           (if debug config then 4 else 0))
             end)
        end
    end.
Proof.
  unfold connect, connect_plan, attempt_of, imapclass_of, io_bind, call, io_ret.
  destruct (encryption config), (on_open srv), (on_starttls srv),
    (on_login srv); reflexivity.
Qed.

(** X8. [connect] returns a client exactly when the server is reached,
    the STARTTLS upgrade (asked for in STARTTLS mode only) goes through
    and the login is accepted.  It has then made the calls of the plan,
    in order, and the client has the attempt's socket and a [debug]
    level of 4 with the debug flag and 0 without. *)
Theorem connect_succeeds_iff (config : Configuration) (srv : Attempt) :
  ((exists t client, connect config srv = (t, Return client)) <->
   on_open srv = None /\
   (encryption config = STARTTLS -> on_starttls srv = None) /\
   on_login srv = None) /\
  (forall t client,
     connect config srv = (t, Return client) ->
     t = connect_plan config /\
     client_socket client = socket_ srv /\
     client_debug client = (if debug config then 4 else 0)).
Proof.
  rewrite connect_cases. split; [split |].
  - intros (t & client & H).
    destruct (on_open srv); [discriminate |].
    split; [reflexivity |].
    destruct (bool_decide (encryption config = STARTTLS)) eqn:Em.
    + destruct (on_starttls srv); [discriminate |].
      destruct (on_login srv); [discriminate |]. now split.
    + apply bool_decide_eq_false in Em.
      destruct (on_login srv); [discriminate |]. split; [tauto | reflexivity].
  - intros (Ho & Hs & Hl). rewrite Ho, Hl.
    destruct (bool_decide (encryption config = STARTTLS)) eqn:Em.
    + apply bool_decide_eq_true in Em. rewrite (Hs Em). eauto.
    + eauto.
  - intros t client H.
    destruct (on_open srv); [discriminate |].
    destruct (if bool_decide (encryption config = STARTTLS)
              then on_starttls srv else None); [discriminate |].
    destruct (on_login srv); [discriminate |].
    injection H as <- <-. repeat split.
Qed.

Lemma connect_succeeds_iff_witness :
  exists t client, connect imaps_config accepted = (t, Return client).
Proof.
  destruct (connect_succeeds_iff imaps_config accepted) as [[_ H] _].
  apply H. split; [reflexivity |]. split; [discriminate | reflexivity].
Defined.

(** X9. The credentials go out only over the transport that was asked
    for: a [Login] in the calls of [connect] carries the configured
    user name and password, the server was reached, and in STARTTLS
    mode the upgrade was made first and went through.  STARTTLS is sent
    in STARTTLS mode only, and an exception that [connect] raises is
    the one the failing call raised. *)
Theorem login_only_after_tls (config : Configuration) (srv : Attempt)
    (user pass : str) :
  In (Login user pass) (fst (connect config srv)) ->
  user = username config /\ pass = password config /\
  on_open srv = None /\
  (encryption config = STARTTLS ->
     on_starttls srv = None /\
     exists t, fst (connect config srv)
               = attempt_of config :: Starttls :: Login user pass :: t) /\
  (forall cfg s, In Starttls (fst (connect cfg s)) ->
     encryption cfg = STARTTLS) /\
  (forall cfg s t err, connect cfg s = (t, Raise err) ->
     on_open s = Some err \/ on_starttls s = Some err \/ on_login s = Some err).
Proof.
  intros Hin.
  assert (Hstart : forall cfg s, In Starttls (fst (connect cfg s)) ->
            encryption cfg = STARTTLS).
  { intros cfg s. rewrite connect_cases. unfold connect_plan, attempt_of.
    destruct (on_open s); simpl; [intros [H | []]; discriminate |].
    destruct (bool_decide (encryption cfg = STARTTLS)) eqn:Em.
    - intros _. now apply bool_decide_eq_true in Em.
    - simpl. intros [H | [H | []]]; discriminate. }
  assert (Herr : forall cfg s t err, connect cfg s = (t, Raise err) ->
            on_open s = Some err \/ on_starttls s = Some err
            \/ on_login s = Some err).
  { intros cfg s t err. rewrite connect_cases.
    destruct (on_open s); [intros [= _ <-]; now left |].
    destruct (bool_decide (encryption cfg = STARTTLS)).
    - destruct (on_starttls s); [intros [= _ <-]; right; now left |].
      destruct (on_login s); [intros [= _ <-]; right; now right | discriminate].
    - destruct (on_login s); [intros [= _ <-]; right; now right | discriminate]. }
  rewrite connect_cases in Hin |- *. unfold connect_plan, attempt_of in *.
  destruct (on_open srv); simpl in Hin; [destruct Hin as [H | []]; discriminate |].
  destruct (bool_decide (encryption config = STARTTLS)) eqn:Em.
  - destruct (on_starttls srv); simpl in Hin.
    + destruct Hin as [H | [H | []]]; discriminate.
    + destruct Hin as [H | [H | [H | []]]]; try discriminate.
      injection H as <- <-. repeat split; try assumption. now exists [].
  - apply bool_decide_eq_false in Em. simpl in Hin.
    destruct Hin as [H | [H | []]]; try discriminate.
    injection H as <- <-. repeat split; try assumption; contradiction.
Qed.

Lemma login_only_after_tls_witness :
  on_open accepted = None /\ on_starttls accepted = None /\
  ~ In (Login (lit "alice") (lit "secret")) (fst (connect example_config no_tls)).
Proof.
  destruct (login_only_after_tls example_config accepted
              (lit "alice") (lit "secret")) as (_ & _ & Ho & Hs & _).
  - right. right. left. reflexivity.
  - split; [exact Ho |]. split; [exact (proj1 (Hs eq_refl)) |].
    intros Hin.
    destruct (login_only_after_tls example_config no_tls
                (lit "alice") (lit "secret") Hin) as (_ & _ & _ & Hs' & _).
    destruct (Hs' eq_refl) as [Hnone _]. discriminate.
Defined.

(** ** The loop against any server *)

Lemma iteration_flow (config : Configuration) (backoff : Z) (srv : Attempt) :
  snd (iteration config backoff srv) = Continue
  <-> transport_failure config srv = true.
Proof.
  unfold transport_failure, connect_failure.
  destruct (connect config srv) as [t [client|err]] eqn:Hc; cbn [snd].
  - rewrite (iteration_connected _ _ _ _ _ Hc).
    destruct (on_notify srv); split; discriminate.
  - destruct (caught_by OSError err) eqn:He.
    + rewrite (iteration_retry _ _ _ _ _ Hc He). now split.
    + rewrite (iteration_propagate _ _ _ _ _ Hc He). split; discriminate.
Qed.

Lemma wait_loop_stop (config : Configuration) (backoff : Z) (srv : Attempt)
    (later : list Attempt) :
  transport_failure config srv = false ->
  wait_loop config backoff (srv :: later) =
    (fst (fst (iteration config backoff srv)),
     snd (fst (iteration config backoff srv)),
     match snd (iteration config backoff srv) with
     | Break => Returned
     | Propagate err => Raised err
     | Continue => Retrying
     end) /\
  snd (iteration config backoff srv) <> Continue.
Proof.
  intros Hf.
  assert (Hne : snd (iteration config backoff srv) <> Continue).
  { intros Hc. apply iteration_flow in Hc. congruence. }
  split; [| exact Hne]. cbn [wait_loop].
  destruct (iteration config backoff srv) as [[t b] f]. cbn [fst snd] in *.
  destruct f; [congruence | reflexivity | reflexivity].
Qed.

Lemma wait_loop_timing (config : Configuration) (server : list Attempt)
    (k : nat) :
  timing (events_of (wait_loop config (backoff_after k) server))
    = flat_map (fun i => [Sleep (backoff_after i); attempt_of config])
        (seq k (attempts_made config server)).
Proof.
  revert k. induction server as [|srv later IH]; intros k; [reflexivity |].
  cbn [attempts_made].
  destruct (transport_failure config srv) eqn:Hf.
  - destruct (wait_loop_retry config (backoff_after k) srv later Hf)
      as (t & Ht & _ & Hloop).
    change (Z.min 120 (2 * Z.max 1 (backoff_after k)))
      with (backoff_after (S k)) in Hloop.
    rewrite Hloop. unfold events_of at 1. cbn [fst].
    rewrite timing_app, Ht, IH. reflexivity.
  - destruct (wait_loop_stop config (backoff_after k) srv later Hf) as [-> _].
    unfold events_of. cbn [fst]. rewrite iteration_timing. reflexivity.
Qed.

Lemma attempts_made_le (config : Configuration) (server : list Attempt) :
  (attempts_made config server <= length server)%nat.
Proof.
  induction server as [|srv later IH]; simpl; [lia |].
  destruct (transport_failure config srv); lia.
Qed.

Lemma attempts_made_stop (config : Configuration) (fails later : list Attempt)
    (srv : Attempt) :
  Forall (fun a => transport_failure config a = true) fails ->
  transport_failure config srv = false ->
  attempts_made config (fails ++ srv :: later) = S (length fails).
Proof.
  intros Hall Hstop. induction Hall as [|a fails Ha _ IH]; simpl.
  - now rewrite Hstop.
  - now rewrite Ha, IH.
Qed.

Lemma backoff_after_bounds (k : nat) : 0 <= backoff_after k <= 120.
Proof. induction k as [|k IH]; simpl; lia. Qed.

Lemma backoff_after_mono (i j : nat) :
  (i <= j)%nat -> backoff_after i <= backoff_after j.
Proof.
  induction 1 as [|j _ IH]; [lia |].
  pose proof (backoff_after_bounds j). simpl. lia.
Qed.

(** X10. Whatever the server does, the sleeps and the connection
    attempts of a run alternate: the attempt after [k] failures comes
    right after a sleep of the [k]-th delay of the sequence, and always
    goes to the configured host and port with the class the mode asks
    for.  The loop makes one attempt per retried failure and stops at
    the first attempt that is not one. *)
Theorem attempts_alternate_with_sleeps (config : Configuration)
    (server : list Attempt) :
  timing (events_of (wait_for_change config server))
    = schedule config (attempts_made config server) /\
  (attempts_made config server <= length server)%nat /\
  (forall fails srv later,
     server = fails ++ srv :: later ->
     Forall (fun a => transport_failure config a = true) fails ->
     transport_failure config srv = false ->
     attempts_made config server = S (length fails)) /\
  (Forall (fun a => transport_failure config a = true) server ->
     attempts_made config server = length server).
Proof.
  split; [apply (wait_loop_timing config server 0) |].
  split; [apply attempts_made_le |]. split.
  - intros fails srv later -> Hall Hstop. now apply attempts_made_stop.
  - induction 1 as [|a l Ha _ IH]; simpl; [reflexivity |].
    now rewrite Ha, IH.
Qed.

Lemma attempts_alternate_with_sleeps_witness :
  attempts_made example_config [refused; bad_login; accepted] = 2%nat /\
  timing (events_of (wait_for_change example_config
                       [refused; bad_login; accepted]))
    = [Sleep 0; Open IMAP4 (lit "mail.example.com") 143;
       Sleep 2; Open IMAP4 (lit "mail.example.com") 143].
Proof.
  destruct (attempts_alternate_with_sleeps example_config
              [refused; bad_login; accepted]) as (Ht & _ & Hn & _).
  split.
  - apply (Hn [refused] bad_login [accepted]);
      [reflexivity | repeat constructor | reflexivity].
  - exact Ht.
Defined.

(** X11. The loop never sleeps longer than two minutes: every sleep of
    a run lasts between 0 and 120 seconds and is one of the delays of
    the sequence, which never decreases; the value of [backoff] when
    the run stops is in the same range. *)
Theorem sleeps_are_bounded (config : Configuration) (server : list Attempt)
    (secs : Z) :
  In (Sleep secs) (events_of (wait_for_change config server)) ->
  0 <= secs <= 120 /\
  (exists k, (k < attempts_made config server)%nat /\ secs = backoff_after k) /\
  (forall i j, (i <= j)%nat -> backoff_after i <= backoff_after j) /\
  0 <= backoff_of (wait_for_change config server) <= 120.
Proof.
  intros Hin.
  assert (Hk : exists k, (k < attempts_made config server)%nat
                         /\ secs = backoff_after k).
  { assert (Hin' : In (Sleep secs)
                     (timing (events_of (wait_for_change config server))))
      by (apply List.filter_In; split; [exact Hin | reflexivity]).
    change (wait_for_change config server)
      with (wait_loop config (backoff_after 0) server) in Hin'.
    rewrite (wait_loop_timing config server 0) in Hin'.
    apply List.in_flat_map in Hin' as (k & Hk & Hev).
    apply List.in_seq in Hk.
    destruct Hev as [[= Hs] | [Hev | []]]; [| discriminate].
    exists k. split; [lia | now rewrite Hs]. }
  split; [destruct Hk as (k & _ & ->); apply backoff_after_bounds |].
  split; [exact Hk |]. split; [exact backoff_after_mono |].
  unfold wait_for_change. clear.
  assert (Hinv : forall l b, 0 <= b <= 120 ->
            0 <= backoff_of (wait_loop config b l) <= 120).
  { induction l as [|srv later IH]; intros b Hb; [exact Hb |].
    destruct (transport_failure config srv) eqn:Hf.
    - destruct (wait_loop_retry config b srv later Hf) as (t & _ & _ & ->).
      unfold backoff_of at 1. cbn [fst snd]. apply IH. lia.
    - destruct (wait_loop_stop config b srv later Hf) as [-> _].
      unfold backoff_of. cbn [fst snd].
      unfold transport_failure, connect_failure in Hf.
      destruct (connect config srv) as [t [client|err]] eqn:Hc;
        cbn [snd] in Hf.
      + rewrite (iteration_connected _ _ _ _ _ Hc).
        destruct (on_notify srv); cbn [fst snd]; lia.
      + rewrite (iteration_propagate _ _ _ _ _ Hc Hf). cbn [fst snd]. lia. }
  apply Hinv. lia.
Qed.

Lemma sleeps_are_bounded_witness :
  In (Sleep 2) (events_of (wait_for_change example_config [refused; accepted]))
  /\ 0 <= 2 <= 120
  /\ 0 <= backoff_of (wait_for_change example_config [refused; accepted]) <= 120.
Proof.
  assert (Hin : In (Sleep 2)
                  (events_of (wait_for_change example_config [refused; accepted])))
    by (cbv; right; right; right; left; reflexivity).
  destruct (sleeps_are_bounded example_config [refused; accepted] 2 Hin)
    as (H & _ & _ & Hb).
  split; [exact Hin |]. split; [exact H | exact Hb].
Defined.

Lemma wait_loop_outcome (config : Configuration) (server : list Attempt)
    (backoff : Z) :
  outcome_of (wait_loop config backoff server) = Retrying
  <-> Forall (fun a => transport_failure config a = true) server.
Proof.
  revert backoff. induction server as [|srv later IH]; intros b.
  - split; [constructor | reflexivity].
  - destruct (transport_failure config srv) eqn:Hf.
    + destruct (wait_loop_retry config b srv later Hf) as (t & _ & _ & ->).
      unfold outcome_of at 1. cbn [snd]. rewrite IH.
      split; [now constructor | now inversion 1].
    + destruct (wait_loop_stop config b srv later Hf) as [-> Hne].
      unfold outcome_of. cbn [snd]. split.
      * destruct (snd (iteration config b srv)); congruence.
      * inversion 1. congruence.
Qed.

Lemma wait_loop_prefix (config : Configuration) (server more : list Attempt)
    (backoff : Z) :
  outcome_of (wait_loop config backoff server) <> Retrying ->
  wait_loop config backoff (server ++ more) = wait_loop config backoff server.
Proof.
  revert backoff. induction server as [|srv later IH]; intros b Hne.
  - now contradiction Hne.
  - change ((srv :: later) ++ more) with (srv :: later ++ more).
    destruct (transport_failure config srv) eqn:Hf.
    + apply transport_failure_inv in Hf as (t & err & Hc & He).
      cbn [wait_loop] in *. rewrite (iteration_retry _ _ _ _ _ Hc He) in *.
      rewrite IH; [reflexivity |].
      intros Hr. apply Hne.
      destruct (wait_loop config _ later) as [[t' b'] o'].
      exact Hr.
    + destruct (wait_loop_stop config b srv later Hf) as [-> _].
      now destruct (wait_loop_stop config b srv (later ++ more) Hf) as [-> _].
Qed.

(** X12. A run is still going after the scripted attempts exactly when
    every one of them was a failure of the transport; otherwise it has
    ended, by returning or by an exception, at the first attempt that
    was not, and nothing the server would do after that changes the
    run. *)
Theorem loop_stops_at_first_other_outcome (config : Configuration)
    (server : list Attempt) :
  (outcome_of (wait_for_change config server) = Retrying
   <-> Forall (fun a => transport_failure config a = true) server) /\
  (outcome_of (wait_for_change config server) <> Retrying ->
   forall more,
     wait_for_change config (server ++ more) = wait_for_change config server).
Proof.
  split; [apply wait_loop_outcome |].
  intros Hne more. now apply wait_loop_prefix.
Qed.

Lemma loop_stops_at_first_other_outcome_witness :
  wait_for_change example_config ([refused; bad_login] ++ [accepted])
    = wait_for_change example_config [refused; bad_login].
Proof.
  destruct (loop_stops_at_first_other_outcome example_config
              [refused; bad_login]) as [_ H].
  apply H. discriminate.
Defined.

(** X13. Only [connect] is retried.  When the session is set up and
    NOTIFY SET then fails, the loop does not catch the exception, also
    when it is an [OSError] such as a connection reset: no [select] is
    made, no new connection is tried, and the process ends with the
    exception uncaught. *)
Theorem notify_failure_is_not_retried (config : Configuration) (backoff : Z)
    (srv : Attempt) (later : list Attempt) (t : list event) (client : Client)
    (err : exn) :
  connect config srv = (t, Return client) ->
  on_notify srv = Some err ->
  wait_loop config backoff (srv :: later) =
    (Sleep backoff :: t ++ [Print Stdout (lit "connected"); notify_command],
     0, Raised err) /\
  waits (events_of (wait_loop config backoff (srv :: later))) = [] /\
  (forall (w : World) (argv : list str) (environ : gmap str str)
          (tc : list event) (fails : list Attempt),
     read_configuration (run_shell w) (files w) (config_file w argv environ)
       = (tc, Return config) ->
     Forall (fun a => transport_failure config a = true) fails ->
     server_script w = fails ++ srv :: later ->
     snd (main w argv environ) = Traceback err /\
     timing (fst (main w argv environ)) = schedule config (S (length fails))).
Proof.
  intros Hc Hn.
  assert (Hloop : forall b, wait_loop config b (srv :: later) =
            (Sleep b :: t ++ [Print Stdout (lit "connected"); notify_command],
             0, Raised err)).
  { intros b. rewrite (wait_loop_connected _ _ _ _ _ _ Hc). now rewrite Hn. }
  pose proof (connect_waits config srv) as Hcw. rewrite Hc in Hcw.
  cbn [fst] in Hcw.
  split; [apply Hloop |]. split.
  - rewrite Hloop. unfold events_of. cbn [fst].
    change (Sleep backoff :: ?l) with ([Sleep backoff] ++ l).
    rewrite !waits_app, Hcw. reflexivity.
  - intros w argv environ tc fails Hcfg Hfails Hscript.
    rewrite (main_configured _ _ _ _ _ Hcfg), Hscript. cbn [fst snd].
    split.
    + assert (Ho : outcome_of (wait_for_change config (fails ++ srv :: later))
                   = Raised err).
      { unfold wait_for_change.
        destruct (wait_loop_failures config fails (srv :: later) 0 Hfails)
          as (t1 & _ & _ & H1).
        change (backoff_after 0) with 0 in H1. rewrite H1.
        unfold outcome_of at 1. cbn [snd]. now rewrite Hloop. }
      now rewrite Ho.
    + pose proof (read_configuration_no_print _ _ _ _ _ Hcfg) as Hruns.
      assert (Htc : timing tc = []).
      { clear -Hruns. induction Hruns as [|ev tc' (cmd & ->) _ IH];
          [reflexivity | exact IH]. }
      change (register_notify :: ?l) with ([register_notify] ++ l).
      rewrite !timing_app, Htc.
      change (wait_for_change config (fails ++ srv :: later))
        with (wait_loop config (backoff_after 0) (fails ++ srv :: later)).
      assert (Hsrv : transport_failure config srv = false).
      { unfold transport_failure, connect_failure. now rewrite Hc. }
      rewrite wait_loop_timing, (attempts_made_stop _ _ _ _ Hfails Hsrv).
      reflexivity.
Qed.

Lemma notify_failure_is_not_retried_witness :
  caught_by OSError reset_error = true /\
  outcome_of (wait_loop example_config 0 [dropped; accepted])
    = Raised reset_error.
Proof.
  destruct (notify_failure_is_not_retried example_config 0 dropped [accepted]
              (connect_plan example_config) (mk_Client (mk_Socket 4 None) 0)
              reset_error eq_refl eq_refl) as (H & _).
  split; [reflexivity |]. now rewrite H.
Defined.

Lemma printed_app (out : stream) (t1 t2 : list event) :
  printed out (t1 ++ t2) = printed out t1 ++ printed out t2.
Proof. apply List.flat_map_app. Qed.

Lemma connect_printed (config : Configuration) (srv : Attempt) (out : stream) :
  printed out (fst (connect config srv)) = [].
Proof.
  rewrite connect_cases. unfold connect_plan, attempt_of.
  destruct (on_open srv), (bool_decide (encryption config = STARTTLS)),
    (on_starttls srv), out; reflexivity.
Qed.

Lemma wait_loop_retry_lines (config : Configuration) (fails : list Attempt)
    (k : nat) :
  Forall (fun a => transport_failure config a = true) fails ->
  printed Stderr (events_of (wait_loop config (backoff_after k) fails))
    = retry_lines config k fails /\
  printed Stdout (events_of (wait_loop config (backoff_after k) fails)) = [].
Proof.
  intros Hall. revert k. induction Hall as [|srv later Hf _ IH]; intros k.
  - split; reflexivity.
  - apply transport_failure_inv in Hf as (t & err & Hc & He).
    destruct (IH (S k)) as [IHe IHo].
    pose proof (connect_printed config srv Stderr) as Hpe.
    pose proof (connect_printed config srv Stdout) as Hpo.
    rewrite Hc in Hpe, Hpo. cbn [fst] in Hpe, Hpo.
    cbn [wait_loop]. rewrite (iteration_retry _ _ _ _ _ Hc He).
    change (Z.min 120 (2 * Z.max 1 (backoff_after k)))
      with (backoff_after (S k)).
    destruct (wait_loop config (backoff_after (S k)) later) as [[t' b'] o'].
    unfold events_of in *. cbn [fst] in *.
    change (Sleep (backoff_after k) :: ?l)
      with ([Sleep (backoff_after k)] ++ l).
    rewrite !printed_app, Hpe, Hpo, IHe, IHo.
    split; [| reflexivity].
    cbn [retry_lines]. unfold failure_text, connect_failure.
    rewrite Hc. reflexivity.
Qed.

(** X14. With the debug flag off (the client then writes no trace of
    its own), while the transport keeps failing the run writes one line
    per failure on standard error and nothing on standard output; the
    line for the failure after [k] earlier ones carries the text of its
    exception and the delay that the loop sleeps next, before the
    following attempt. *)
Theorem retry_lines_announce_next_sleep (config : Configuration)
    (fails : list Attempt) :
  debug config = false ->
  Forall (fun a => transport_failure config a = true) fails ->
  printed Stderr (events_of (wait_for_change config fails))
    = retry_lines config 0 fails /\
  printed Stdout (events_of (wait_for_change config fails)) = [] /\
  length (retry_lines config 0 fails) = length fails /\
  (forall ok later,
     transport_failure config ok = false ->
     timing (events_of (wait_for_change config (fails ++ ok :: later)))
       = schedule config (S (length fails))).
Proof.
  intros _ Hall.
  destruct (wait_loop_retry_lines config fails 0 Hall) as [He Ho].
  split; [exact He |]. split; [exact Ho |]. split.
  - clear. generalize 0%nat. induction fails as [|a l IH]; intros k;
      [reflexivity |]. simpl. now rewrite IH.
  - intros ok later Hok.
    change (wait_for_change config (fails ++ ok :: later))
      with (wait_loop config (backoff_after 0) (fails ++ ok :: later)).
    now rewrite wait_loop_timing, (attempts_made_stop _ _ _ _ Hall Hok).
Qed.

Lemma retry_lines_announce_next_sleep_witness :
  printed Stderr (events_of (wait_for_change example_config [refused; refused]))
    = [lit "Could not connect to server: [Errno 111] Connection refused. Retry in 2 sec";
       lit "Could not connect to server: [Errno 111] Connection refused. Retry in 4 sec"].
Proof.
  destruct (retry_lines_announce_next_sleep example_config [refused; refused])
    as (H & _).
  - reflexivity.
  - repeat constructor.
  - exact H.
Defined.

(** ** The process, end to end *)

Lemma runs_only_timing (t : list event) :
  Forall (fun ev => exists cmd, ev = Run cmd) t ->
  timing t = [] /\ waits t = [] /\
  (forall user pass, ~ In (Login user pass) t).
Proof.
  induction 1 as [|ev t (cmd & ->) _ (IH1 & IH2 & IH3)].
  - repeat split. intros user pass [].
  - split; [exact IH1 |]. split; [exact IH2 |].
    intros user pass [H | H]; [discriminate | now apply (IH3 user pass)].
Qed.

(** X15. When the configuration cannot be read, the process never
    touches the network: it does not sleep, open a connection, send a
    login or wait on a socket.  It ends with status 1 when the failure
    is a [ConfigError] and with the exception uncaught otherwise. *)
Theorem no_connection_without_configuration (w : World) (argv : list str)
    (environ : gmap str str) (tc : list event) (err : exn) :
  read_configuration (run_shell w) (files w) (config_file w argv environ)
    = (tc, Raise err) ->
  timing (fst (main w argv environ)) = [] /\
  waits (fst (main w argv environ)) = [] /\
  (forall user pass, ~ In (Login user pass) (fst (main w argv environ))) /\
  snd (main w argv environ)
    = (if caught_by ConfigError err then Exit 1 else Traceback err).
Proof.
  intros Hrc.
  destruct (runs_only_timing tc (read_configuration_no_print _ _ _ _ _ Hrc))
    as (Ht & Hw & Hl).
  destruct (caught_by ConfigError err) eqn:He.
  - rewrite (main_config_error _ _ _ _ _ Hrc He). cbn [fst snd].
    change (register_notify :: ?l) with ([register_notify] ++ l).
    rewrite !timing_app, !waits_app, Ht, Hw.
    repeat split. intros user pass Hin.
    apply List.in_app_or in Hin as [[H | []] | Hin]; [discriminate |].
    apply List.in_app_or in Hin as [Hin | [H | []]];
      [now apply (Hl user pass) | discriminate].
  - rewrite (main_other_error _ _ _ _ _ Hrc He). cbn [fst snd].
    change (register_notify :: ?l) with ([register_notify] ++ l).
    rewrite !timing_app, !waits_app, Ht, Hw.
    repeat split. intros user pass Hin.
    apply List.in_app_or in Hin as [[H | []] | Hin]; [discriminate |].
    now apply (Hl user pass).
Qed.

Lemma no_connection_without_configuration_witness :
  timing (fst (main (example_world [accepted]) argv_none ∅)) = [] /\
  snd (main (example_world [accepted]) argv_none ∅) = Exit 1.
Proof.
  destruct (no_connection_without_configuration (example_world [accepted])
              argv_none ∅ []
              (mk_exn ConfigError (lit "No imap section found")))
    as (Ht & _ & _ & Hx); [reflexivity |].
  split; [exact Ht | exact Hx].
Defined.

Lemma wait_loop_waits (config : Configuration) (server : list Attempt)
    (backoff : Z) :
  (outcome_of (wait_loop config backoff server) = Returned ->
   exists sock,
     waits (events_of (wait_loop config backoff server))
       = [Select [sock] 900]) /\
  (outcome_of (wait_loop config backoff server) <> Returned ->
   waits (events_of (wait_loop config backoff server)) = []).
Proof.
  revert backoff. induction server as [|srv later IH]; intros b.
  - split; [discriminate | reflexivity].
  - destruct (transport_failure config srv) eqn:Hf.
    + destruct (wait_loop_retry config b srv later Hf) as (t & _ & Hw & ->).
      set (rest := wait_loop config (Z.min 120 (2 * Z.max 1 b)) later).
      change (outcome_of (t ++ events_of rest, backoff_of rest, outcome_of rest))
        with (outcome_of rest).
      change (events_of (t ++ events_of rest, backoff_of rest, outcome_of rest))
        with (t ++ events_of rest).
      rewrite waits_app, Hw. exact (IH _).
    + unfold transport_failure, connect_failure in Hf.
      pose proof (connect_waits config srv) as Hcw.
      destruct (connect config srv) as [t [client|err]] eqn:Hc;
        cbn [fst snd] in Hf, Hcw.
      * rewrite (wait_loop_connected _ _ _ _ _ _ Hc).
        unfold outcome_of, events_of.
        destruct (on_notify srv); cbn [fst snd];
          change (Sleep b :: ?l) with ([Sleep b] ++ l);
          rewrite !waits_app, Hcw.
        -- split; [discriminate | reflexivity].
        -- split; [intros _; eexists; reflexivity | congruence].
      * rewrite (wait_loop_propagate _ _ _ _ _ _ Hc Hf).
        unfold outcome_of, events_of. cbn [fst snd].
        change (Sleep b :: ?l) with ([Sleep b] ++ l).
        rewrite waits_app, Hcw. split; [discriminate | reflexivity].
Qed.

(** X16. The process ends with status 0 only after a full run: the
    configuration was read, the loop returned, and exactly one wait of
    900 seconds on a socket was made. *)
Theorem exit_zero_means_one_wait (w : World) (argv : list str)
    (environ : gmap str str) :
  snd (main w argv environ) = Exit 0 ->
  exists tc config sock,
    read_configuration (run_shell w) (files w) (config_file w argv environ)
      = (tc, Return config) /\
    outcome_of (wait_for_change config (server_script w)) = Returned /\
    waits (fst (main w argv environ)) = [Select [sock] 900].
Proof.
  intros Hexit.
  destruct (read_configuration (run_shell w) (files w)
              (config_file w argv environ)) as [tc [config|err]] eqn:Hrc.
  - rewrite (main_configured _ _ _ _ _ Hrc) in Hexit |- *.
    cbn [fst snd] in *.
    assert (Ho : outcome_of (wait_for_change config (server_script w))
                 = Returned)
      by (destruct (outcome_of _); [reflexivity | discriminate | discriminate]).
    destruct (wait_loop_waits config (server_script w) 0) as [Hw _].
    destruct (Hw Ho) as [sock Hsock].
    destruct (runs_only_timing tc (read_configuration_no_print _ _ _ _ _ Hrc))
      as (_ & Htw & _).
    exists tc, config, sock. split; [reflexivity |]. split; [exact Ho |].
    change (register_notify :: ?l) with ([register_notify] ++ l).
    rewrite !waits_app, Htw. exact Hsock.
  - destruct (caught_by ConfigError err) eqn:He.
    + rewrite (main_config_error _ _ _ _ _ Hrc He) in Hexit. discriminate.
    + rewrite (main_other_error _ _ _ _ _ Hrc He) in Hexit. discriminate.
Qed.

Lemma exit_zero_means_one_wait_witness :
  exists tc config sock,
    read_configuration example_shell example_files (lit "/etc/imap-notify.ini")
      = (tc, Return config) /\
    outcome_of (wait_for_change config [refused; silent]) = Returned /\
    waits (fst (main (example_world [refused; silent]) argv_etc ∅))
      = [Select [sock] 900].
Proof.
  apply (exit_zero_means_one_wait (example_world [refused; silent]) argv_etc ∅).
  reflexivity.
Defined.

(** ** Which file is read *)

Lemma endswith_sep_app (a b : str) :
  b <> [] -> endswith_sep (a ++ b) = endswith_sep b.
Proof.
  intros Hb. unfold endswith_sep. rewrite last_app.
  destruct (last b) eqn:E; [reflexivity |].
  apply last_None in E. contradiction.
Qed.

Lemma path_join_config_home (config_home : str) :
  path_join (path_join config_home (lit "imap-notify")) (lit "imap-notify.ini")
    = config_dir config_home ++ lit "imap-notify/imap-notify.ini".
Proof.
  unfold path_join at 2, config_dir.
  change (startswith_sep (lit "imap-notify")) with false. cbv iota.
  destruct (bool_decide (config_home = []) || endswith_sep config_home).
  - unfold path_join.
    change (startswith_sep (lit "imap-notify.ini")) with false. cbv iota.
    rewrite endswith_sep_app by discriminate.
    change (endswith_sep (lit "imap-notify")) with false.
    rewrite bool_decide_eq_false_2
      by (destruct config_home; discriminate).
    simpl orb. cbv iota. now rewrite <- app_assoc.
  - unfold path_join.
    change (startswith_sep (lit "imap-notify.ini")) with false. cbv iota.
    rewrite app_assoc, endswith_sep_app by discriminate.
    change (endswith_sep (lit "imap-notify")) with false.
    rewrite bool_decide_eq_false_2
      by (destruct config_home; discriminate).
    simpl orb. cbv iota. now rewrite <- !app_assoc.
Qed.

(** X17. [main] reads the file named by its first argument when there
    is one, whatever the environment.  Without an argument it reads
    [imap-notify/imap-notify.ini] under [XDG_CONFIG_HOME], or under the
    expansion of [~/.config] when that variable is not set; one slash
    is put after the directory unless it ends in one or is empty, so
    that an empty [XDG_CONFIG_HOME] gives a path relative to the
    working directory. *)
Theorem config_file_selection (w : World) (argv : list str)
    (environ : gmap str str) :
  (forall prog path rest,
     argv = prog :: path :: rest -> config_file w argv environ = path) /\
  ((length argv <= 1)%nat ->
     (forall home, environ !! lit "XDG_CONFIG_HOME" = Some home ->
        config_file w argv environ
          = config_dir home ++ lit "imap-notify/imap-notify.ini") /\
     (environ !! lit "XDG_CONFIG_HOME" = None ->
        config_file w argv environ
          = config_dir (expanduser w (lit "~/.config"))
              ++ lit "imap-notify/imap-notify.ini") /\
     (environ !! lit "XDG_CONFIG_HOME" = Some (lit EmptyString) ->
        config_file w argv environ = lit "imap-notify/imap-notify.ini")).
Proof.
  split.
  - intros prog path rest ->. reflexivity.
  - intros Hlen. unfold config_file.
    assert (Hno : (1 <? length argv)%nat = false) by (apply Nat.ltb_ge; lia).
    rewrite Hno. unfold section_get. split; [| split].
    + intros home ->. apply path_join_config_home.
    + intros ->. apply path_join_config_home.
    + intros ->. reflexivity.
Qed.

Lemma config_file_selection_witness :
  config_file (example_world []) argv_none
    {[ lit "XDG_CONFIG_HOME" := lit "/home/alice/cfg" ]}
    = lit "/home/alice/cfg/imap-notify/imap-notify.ini" /\
  config_file (example_world []) argv_none ∅
    = lit "/home/alice/.config/imap-notify/imap-notify.ini".
Proof.
  destruct (config_file_selection (example_world []) argv_none
              {[ lit "XDG_CONFIG_HOME" := lit "/home/alice/cfg" ]}) as [_ H1].
  destruct (config_file_selection (example_world []) argv_none ∅) as [_ H2].
  destruct H1 as (H1 & _); [simpl; lia |].
  destruct H2 as (_ & H2 & _); [simpl; lia |].
  split; [exact (H1 _ eq_refl) | exact (H2 eq_refl)].
Defined.

(** ** Late failures of [read_configuration] *)

Section LateFailures.

Variable shell : str -> CompletedProcess.
Variable read_ini : str -> Py (gmap str (gmap str str)).

(** X18. The [debug] option is read last: when it is not a boolean,
    [read_configuration] fails with [ValueError], which is not a
    [ConfigError], and it does so only after the password command,
    if there is one to run, has been run. *)
Theorem debug_is_read_after_the_secret (path : str)
    (parser : gmap str (gmap str str)) (imap : gmap str str)
    (mode : Encryption) (p : Z) (t : list event) (pw : str) (err : exn) :
  read_ini path = Return parser ->
  parser !! lit "imap" = Some imap ->
  truthy (imap !! lit "host") = true ->
  truthy (imap !! lit "username") = true ->
  get_encryption imap = Return mode ->
  get_port imap (default_port_of mode) = Return p ->
  get_password shell imap = (t, Return pw) ->
  getboolean imap (lit "debug") false = Raise err ->
  read_configuration shell read_ini path = (t, Raise err) /\
  exn_class err = ValueError /\
  caught_by ConfigError err = false.
Proof.
  intros Hp Hi Hh Hu He Hport Hpw Hd.
  unfold read_configuration, pure. rewrite Hp. simpl.
  rewrite Hi, !section_get_None, Hh, Hu. simpl. rewrite He. simpl.
  unfold default_port_of in Hport. rewrite Hport. simpl. rewrite Hpw. simpl.
  rewrite Hd. simpl. rewrite app_nil_r. split; [reflexivity |].
  apply getboolean_Raise in Hd. destruct err as [cls msg]. simpl in Hd.
  subst cls. split; reflexivity.
Qed.

(** X19. Output of the password command that is not UTF-8 is not
    reported as a configuration error: with status 0 and bytes that do
    not decode, [get_password] raises [UnicodeDecodeError] after the
    command has run, and [read_configuration] passes it on. *)
Theorem undecodable_secret_is_not_a_config_error (section : gmap str str)
    (cmd : str) :
  truthy (section !! lit "password") = false ->
  section !! lit "password_command" = Some cmd ->
  cmd <> [] ->
  returncode (shell cmd) = 0 ->
  decode_utf8 (stdout (shell cmd)) = None ->
  exists err,
    get_password shell section = ([Run cmd], Raise err) /\
    exn_class err = UnicodeDecodeError /\
    caught_by ValueError err = true /\
    caught_by ConfigError err = false /\
    (forall path parser mode p,
       read_ini path = Return parser ->
       parser !! lit "imap" = Some section ->
       truthy (section !! lit "host") = true ->
       truthy (section !! lit "username") = true ->
       get_encryption section = Return mode ->
       get_port section (default_port_of mode) = Return p ->
       read_configuration shell read_ini path = ([Run cmd], Raise err)).
Proof.
  intros Hpw Hc Hne Hrc Hdec.
  pose proof (get_password_command shell section cmd Hpw Hc Hne) as H.
  rewrite Hrc, Hdec in H. simpl in H.
  eexists. split; [exact H |]. repeat split.
  intros path parser mode p Hp Hi Hh Hu He Hport.
  unfold read_configuration, pure. rewrite Hp. simpl.
  rewrite Hi, !section_get_None, Hh, Hu. simpl. rewrite He. simpl.
  unfold default_port_of in Hport. rewrite Hport. simpl. rewrite H.
  reflexivity.
Qed.

End LateFailures.

Lemma debug_is_read_after_the_secret_witness :
  read_configuration example_shell verbose_files (lit "/etc/imap-notify.ini")
    = ([Run (lit "pass show mail")],
       Raise (mk_exn ValueError (lit "Not a boolean: verbose"))).
Proof.
  destruct (debug_is_read_after_the_secret example_shell verbose_files
              (lit "/etc/imap-notify.ini") {[ lit "imap" := verbose_section ]}
              verbose_section STARTTLS 143
              [Run (lit "pass show mail")] (lit "hunter2")
              (mk_exn ValueError (lit "Not a boolean: verbose")))
    as (H & _); [reflexivity .. | exact H].
Defined.

Lemma undecodable_secret_is_not_a_config_error_witness :
  exists err,
    get_password binary_shell
      (section_of [("password_command", "gpg -d secret.gpg")]%string)
    = ([Run (lit "gpg -d secret.gpg")], Raise err) /\
    exn_class err = UnicodeDecodeError.
Proof.
  destruct (undecodable_secret_is_not_a_config_error
              binary_shell (fun _ => Return ∅)
              (section_of [("password_command", "gpg -d secret.gpg")]%string)
              (lit "gpg -d secret.gpg"))
    as (err & H & Hcls & _);
    [reflexivity | reflexivity | discriminate | reflexivity | reflexivity |].
  exists err. split; [exact H | exact Hcls].
Defined.


(** ** Where two statements of the specification stop *)

(** C6 (counterexample).  "Otherwise the secret is the command's
    captured standard output" fails for output that is not text: the
    command is the only secret configured and ends with status 0, but
    its output is the single byte 255, and [get_password] raises
    [UnicodeDecodeError] instead of returning a secret. *)
Lemma secret_resolution_counterexample :
  truthy (section_of [("password_command", "gpg -d secret.gpg")]%string
            !! lit "password") = false /\
  section_of [("password_command", "gpg -d secret.gpg")]%string
    !! lit "password_command" = Some (lit "gpg -d secret.gpg") /\
  returncode (binary_shell (lit "gpg -d secret.gpg")) = 0 /\
  stdout (binary_shell (lit "gpg -d secret.gpg")) = [255%N] /\
  get_password binary_shell
    (section_of [("password_command", "gpg -d secret.gpg")]%string)
    = ([Run (lit "gpg -d secret.gpg")],
       raise UnicodeDecodeError (lit "'utf-8' codec can't decode bytes")) /\
  ~ (exists t secret,
       get_password binary_shell
         (section_of [("password_command", "gpg -d secret.gpg")]%string)
       = (t, Return secret)).
Proof.
  repeat split. intros (t & secret & H). discriminate H.
Qed.

(** C7 (counterexample).  An established session does not always get
    its wait: here [connect] returns a client, NOTIFY SET then fails
    with a connection reset, and the loop ends with that exception,
    having made no [select] and printed neither "Got change" nor
    "Timeout". *)
Lemma single_wait_cycle_counterexample :
  connect example_config dropped
    = (connect_plan example_config,
       Return (mk_Client (mk_Socket 4 None) 0)) /\
  outcome_of (wait_for_change example_config [dropped]) = Raised reset_error /\
  waits (events_of (wait_for_change example_config [dropped])) = [] /\
  printed Stdout (events_of (wait_for_change example_config [dropped]))
    = [lit "connected"] /\
  ~ (exists sock timeout,
       In (Select sock timeout)
          (events_of (wait_for_change example_config [dropped]))).
Proof.
  repeat split. intros (sock & timeout & Hin).
  assert (Hw : In (Select sock timeout)
                 (waits (events_of (wait_for_change example_config [dropped]))))
    by (apply List.filter_In; split; [exact Hin | reflexivity]).
  exact Hw.
Qed.
